(** * Shallow embedding of index.js (Oxford dictionary lookup)

    The program queries the Oxford University Press API and prints the
    definitions of an expression, grouped by part of speech.  This file
    embeds the response treatment ([treatResponse], [treatTopLevelObject],
    [treatLexicalEntry], [treatEntry]) over a model of the JavaScript values
    the functions receive, and proves properties of it.

    - API data is a [value]: parsed JSON, plus [Undefined], which property
      reads and array elements can hold.
    - A thrown exception is [Throw]; every exception these functions can
      raise on such data is a [TypeError].
    - The [collector] object is an association list in property-creation
      order; [Object_keys] lists its keys the way [Object.keys] does.
    - [console.log] appends its argument to a [console]. *)

From Stdlib Require Import List String Ascii Bool Arith NArith Lia.
From Stdlib Require Import DecimalString Sorted Permutation.
Import ListNotations.
Local Open Scope string_scope.
Local Open Scope list_scope.

(** ** Exceptions *)

Inductive error : Type :=
| TypeError.

Inductive result (A : Type) : Type :=
| Ok (a : A)
| Throw (e : error).

Arguments Ok {A} a.
Arguments Throw {A} e.

Definition bind {A B : Type} (r : result A) (k : A -> result B) : result B :=
  match r with
  | Ok a => k a
  | Throw e => Throw e
  end.

Notation "x <- r ;; k" := (bind r (fun x => k))
  (at level 61, r at next level, right associativity).

(** [Array.prototype.reduce] with an initial value and a callback that may
    throw: left to right, stopping at the first exception. *)
Fixpoint reduce {A B : Type} (f : B -> A -> result B) (l : list A) (init : B)
  : result B :=
  match l with
  | [] => Ok init
  | x :: rest => acc <- f init x ;; reduce f rest acc
  end.

(** [Array.prototype.map] with a callback that may throw. *)
Fixpoint map_result {A B : Type} (f : A -> result B) (l : list A)
  : result (list B) :=
  match l with
  | [] => Ok []
  | x :: rest => y <- f x ;; ys <- map_result f rest ;; Ok (y :: ys)
  end.

(** ** Values *)

(** A number is carried as the string [Number::toString] gives for it: the
    program never computes with the numbers of a response, it can only
    convert them to text. *)
#[warnings="-register-all"]
Inductive value : Type :=
| Undefined
| Null
| Bool (b : bool)
| Num (image : string)
| Str (s : string)
| Arr (elems : list value)
| Obj (props : list (string * value)).

(** Own property of a parsed object, by name. *)
Fixpoint lookup {A : Type} (props : list (string * A)) (k : string) : option A :=
  match props with
  | [] => None
  | (k', v) :: rest => if String.eqb k k' then Some v else lookup rest k
  end.

(** [v.k] for the property names the program reads off API data: [data],
    [metadata], [results], [provider], [lexicalEntries], [lexicalCategory],
    [entries], [text], [senses], [definitions].  Reading a property of
    [undefined] or [null] throws.  None of these names is a property of
    [Object.prototype], nor of the prototypes of strings, numbers and
    booleans, so a name that is not an own property reads as [undefined].
    On an array, [entries] names the built-in [Array.prototype.entries];
    the program uses that read only as the receiver of [.map], where a
    function fails like [undefined] does, so it is read as [Undefined] too. *)
Definition get (v : value) (k : string) : result value :=
  match v with
  | Undefined | Null => Throw TypeError
  | Obj props =>
      match lookup props k with
      | Some x => Ok x
      | None => Ok Undefined
      end
  | Bool _ | Num _ | Str _ | Arr _ => Ok Undefined
  end.

(** The receiver of an array method call ([.reduce], [.map]): the elements
    of an array; on anything else the method is missing (or, for an own
    property of a parsed object, not a function) and the call throws. *)
Definition elements (v : value) : result (list value) :=
  match v with
  | Arr elems => Ok elems
  | _ => Throw TypeError
  end.

(** [Array.prototype.flat()], depth 1: an element that is an array is
    replaced by its elements, any other element (including [undefined])
    is kept. *)
Fixpoint flat (l : list value) : list value :=
  match l with
  | [] => []
  | Arr elems :: rest => elems ++ flat rest
  | x :: rest => x :: flat rest
  end.

(** [hasOwnProperty]. *)
Definition has_own {A : Type} (props : list (string * A)) (k : string) : bool :=
  match lookup props k with
  | Some _ => true
  | None => false
  end.

(** [ToString], as a template literal and a computed property key apply it.
    An array is joined with commas, [undefined] and [null] elements giving
    the empty string.  A parsed object gives ["[object Object]"] through
    [Object.prototype.toString], unless it has an own property [toString]:
    that one is data, not callable, and [valueOf] yields no primitive, so
    the conversion throws. *)
Fixpoint to_string (v : value) : result string :=
  match v with
  | Undefined => Ok "undefined"
  | Null => Ok "null"
  | Bool true => Ok "true"
  | Bool false => Ok "false"
  | Num image => Ok image
  | Str s => Ok s
  | Arr elems =>
      (fix join (l : list value) : result string :=
         match l with
         | [] => Ok EmptyString
         | x :: rest =>
             s <- match x with
                  | Undefined | Null => Ok EmptyString
                  | _ => to_string x
                  end ;;
             match rest with
             | [] => Ok s
             | _ :: _ => r <- join rest ;; Ok (s ++ "," ++ r)%string
             end
         end) elems
  | Obj props =>
      if has_own props "toString" then Throw TypeError
      else Ok "[object Object]"
  end.

(** ** treatEntry (index.js, lines 161-169) *)

(** [const treatSense = (array, sense) => [...array, sense.definitions].flat()] *)
Definition treatSense (array : list value) (sense : value)
  : result (list value) :=
  definitions <- get sense "definitions" ;;
  Ok (flat (array ++ [definitions])).

(** [const { senses=[] } = entry]: the default applies when the property
    reads as [undefined]; [return senses.reduce(treatSense, [])]. *)
Definition treatEntry (entry : value) : result (list value) :=
  read <- get entry "senses" ;;
  let senses := match read with
                | Undefined => Arr []
                | other => other
                end in
  l <- elements senses ;;
  reduce treatSense l [].

(** ** The collector object *)

(** [treatResponse] starts the reduction with the object literal [{}] and
    [treatLexicalEntry] stores one array per part of speech in it.  The own
    properties are kept in creation order. *)
Definition mapping : Type := list (string * list value).

(** The properties every object literal inherits from [Object.prototype]. *)
Definition Object_prototype_names : list string :=
  [ "constructor"; "__defineGetter__"; "__defineSetter__"; "hasOwnProperty";
    "__lookupGetter__"; "__lookupSetter__"; "isPrototypeOf";
    "propertyIsEnumerable"; "toString"; "valueOf"; "__proto__";
    "toLocaleString" ].

Definition inherited (k : string) : bool :=
  existsb (String.eqb k) Object_prototype_names.

(** What [collector[key]] reads: an own array, a built-in found on the
    prototype chain (a function, or [Object.prototype] itself for
    [__proto__]), or [undefined]. *)
Inductive slot : Type :=
| Own (data : list value)
| Inherited
| Missing.

Definition read (collector : mapping) (key : string) : slot :=
  match lookup collector key with
  | Some data => Own data
  | None => if inherited key then Inherited else Missing
  end.

(** [collector[key] = data] for a key that is own or not inherited: an own
    property keeps its place, a new one is created last. *)
Fixpoint assign (collector : mapping) (key : string) (data : list value)
  : mapping :=
  match collector with
  | [] => [(key, data)]
  | (k, old) :: rest =>
      if String.eqb key k then (k, data) :: rest
      else (k, old) :: assign rest key data
  end.

(** An array index: the canonical decimal text of an integer below
    [2^32 - 1] (["0"], ["7"], ["42"]; not ["07"], not the empty string). *)
Definition array_index (k : string) : option N :=
  match NilEmpty.uint_of_string k with
  | Some u =>
      let n := N.of_uint u in
      if (String.eqb (NilEmpty.string_of_uint (N.to_uint n)) k
          && (n <? 4294967295)%N)%bool
      then Some n else None
  | None => None
  end.

Definition is_index (k : string) : bool :=
  match array_index k with
  | Some _ => true
  | None => false
  end.

(** Order of array indices, by numeric value. *)
Definition index_le (p q : N * string) : Prop := (fst p <= fst q)%N.

Fixpoint insert_index (p : N * string) (l : list (N * string))
  : list (N * string) :=
  match l with
  | [] => [p]
  | q :: rest =>
      if (fst p <=? fst q)%N then p :: q :: rest
      else q :: insert_index p rest
  end.

Fixpoint indices (names : list string) : list (N * string) :=
  match names with
  | [] => []
  | k :: rest =>
      match array_index k with
      | Some n => insert_index (n, k) (indices rest)
      | None => indices rest
      end
  end.

(** [Object.keys]: the own keys that are array indices in ascending numeric
    order, then the other keys in creation order. *)
Definition Object_keys (collection : mapping) : list string :=
  let names := map fst collection in
  map snd (indices names) ++ filter (fun k => negb (is_index k)) names.

(** ** treatLexicalEntry (index.js, lines 135-149) *)

Definition treatLexicalEntry (collector : mapping) (lexicalEntry : value)
  : result mapping :=
  (* const { entries, lexicalCategory } = lexicalEntry *)
  entries <- get lexicalEntry "entries" ;;
  lexicalCategory <- get lexicalEntry "lexicalCategory" ;;
  (* const partOfSpeech = lexicalCategory.text *)
  partOfSpeech <- get lexicalCategory "text" ;;
  (* let definitions = entries.map(treatEntry).flat() *)
  l <- elements entries ;;
  arrays <- map_result treatEntry l ;;
  let definitions := flat (map Arr arrays) in
  (* const current = collector[partOfSpeech] || [] *)
  key <- to_string partOfSpeech ;;
  (* collector[partOfSpeech] = [...current, ...definitions]: an inherited
     built-in is truthy and not iterable, the spread throws *)
  match read collector key with
  | Own current => Ok (assign collector key (current ++ definitions))
  | Missing => Ok (assign collector key ([] ++ definitions))
  | Inherited => Throw TypeError
  end.

(** ** treatTopLevelObject (index.js, lines 121-125) *)

Definition treatTopLevelObject (collector : mapping) (topLevelObject : value)
  : result mapping :=
  lexicalEntries <- get topLevelObject "lexicalEntries" ;;
  l <- elements lexicalEntries ;;
  reduce treatLexicalEntry l collector.

(** ** treatResponse (index.js, lines 83-113) *)

Definition newline : string := String "010"%char EmptyString.
Definition quote : string := String "034"%char EmptyString.

(** Decimal text of [index + 1]. *)
Definition decimal (n : nat) : string :=
  NilEmpty.string_of_uint (Nat.to_uint n).

(** [Array.prototype.join] on an array of strings. *)
Fixpoint join (separator : string) (l : list string) : string :=
  match l with
  | [] => EmptyString
  | [s] => s
  | s :: rest => (s ++ separator ++ join separator rest)%string
  end.

(** [data.map((definition, index) => `${index + 1}. ${definition}`)], the
    callback's [index] running from [index] on. *)
Fixpoint catDefs (index : nat) (data : list value) : result (list string) :=
  match data with
  | [] => Ok []
  | definition :: rest =>
      d <- to_string definition ;;
      lines <- catDefs (S index) rest ;;
      Ok ((decimal (index + 1) ++ ". " ++ d)%string :: lines)
  end.

(** The callback of [categories.forEach] (lines 98-106), threading the
    local [definitions] it appends to.  [category] is an own key of
    [collection], so the read on line 99 finds its array. *)
Definition renderCategory (collection : mapping) (definitions : string)
  (category : string) : result string :=
  match lookup collection category with
  | Some data =>
      match data with
      | [] => Ok definitions          (* data.length is 0 *)
      | _ :: _ =>
          lines <- catDefs 0 data ;;
          Ok (definitions ++ newline ++ "# " ++ category ++ newline
                ++ join newline lines ++ newline)%string
      end
  | None => Ok definitions
  end.

(** Lines 95-106: the text of all categories. *)
Definition renderDefinitions (collection : mapping) : result string :=
  let categories := Object_keys collection in
  reduce (renderCategory collection) categories EmptyString.

Definition console : Type := list string.

Definition banner : string := "***************************".

(** Lines 95-112: the text renderer.  The first banner is logged before
    [metadata.provider] is read. *)
Definition renderText (expression : string) (metadata : value)
  (collection : mapping) (out : console) : console * result unit :=
  match renderDefinitions collection with
  | Throw e => (out, Throw e)
  | Ok definitions =>
      let out := out ++ [banner] in
      match (provider <- get metadata "provider" ;; to_string provider) with
      | Throw e => (out, Throw e)
      | Ok provider =>
          (out ++ [ (newline ++ "Definitions of " ++ quote ++ expression
                       ++ quote ++ ", as provided by " ++ provider)%string;
                    definitions;
                    banner ],
           Ok tt)
      end
  end.

(** Lines 83-88: the response reducer. *)
Definition reduceResponse (response : value) : result (value * mapping) :=
  (* ({ data }) *)
  data <- get response "data" ;;
  (* const { metadata, results } = data *)
  metadata <- get data "metadata" ;;
  results <- get data "results" ;;
  (* const collection = results.reduce(treatTopLevelObject, {}) *)
  l <- elements results ;;
  collection <- reduce treatTopLevelObject l [] ;;
  Ok (metadata, collection).

Definition treatResponse (expression : string) (response : value)
  (out : console) : console * result unit :=
  match reduceResponse response with
  | Throw e => (out, Throw e)
  | Ok (metadata, collection) => renderText expression metadata collection out
  end.

(** The entry point on an API response body: axios hands [treatResponse]
    a response object whose [data] property is the parsed body. *)
Definition render (expression : string) (apiResponse : value)
  : console * result unit :=
  treatResponse expression (Obj [("data", apiResponse)]) [].

(** ** Well-formed responses

    The shape of a response as the data model gives it, and the parsed
    JSON value of each part.  [senses] and [definitions] are optional:
    [None] is an absent key. *)

Record Sense : Type := { sense_definitions : option (list string) }.

Record SenseGroup : Type := { group_senses : option (list Sense) }.

Record LexicalEntry : Type :=
  { entry_label : string;
    entry_groups : list SenseGroup }.

Record ResultEntry : Type := { result_entries : list LexicalEntry }.

Record ApiResponse : Type :=
  { response_provider : string;
    response_results : list ResultEntry }.

Definition sense_value (s : Sense) : value :=
  Obj match sense_definitions s with
      | Some ds => [("definitions", Arr (map Str ds))]
      | None => []
      end.

Definition group_value (g : SenseGroup) : value :=
  Obj match group_senses g with
      | Some ss => [("senses", Arr (map sense_value ss))]
      | None => []
      end.

Definition lexical_value (e : LexicalEntry) : value :=
  Obj [ ("lexicalCategory", Obj [("text", Str (entry_label e))]);
        ("entries", Arr (map group_value (entry_groups e))) ].

Definition result_value (r : ResultEntry) : value :=
  Obj [("lexicalEntries", Arr (map lexical_value (result_entries r)))].

Definition response_value (a : ApiResponse) : value :=
  Obj [ ("metadata", Obj [("provider", Str (response_provider a))]);
        ("results", Arr (map result_value (response_results a))) ].

(** The lexical entries of a response in traversal order, and their
    part-of-speech labels. *)
Definition lexical_entries (a : ApiResponse) : list LexicalEntry :=
  flat_map result_entries (response_results a).

Definition labels (a : ApiResponse) : list string :=
  map entry_label (lexical_entries a).

(** What the traversal of lines 141 and 161-169 collects from each part.
    A sense without [definitions] yields the one element [undefined]:
    [[...array, undefined].flat()] keeps it. *)
Definition sense_collects (s : Sense) : list value :=
  match sense_definitions s with
  | Some ds => map Str ds
  | None => [Undefined]
  end.

Definition group_collects (g : SenseGroup) : list value :=
  match group_senses g with
  | Some ss => flat_map sense_collects ss
  | None => []
  end.

Definition entry_collects (e : LexicalEntry) : list value :=
  flat_map group_collects (entry_groups e).

(** The definitions of all lexical entries labelled [k], concatenated in
    encounter order. *)
Definition collected_under (k : string) (es : list LexicalEntry) : list value :=
  flat_map entry_collects
    (filter (fun e => String.eqb (entry_label e) k) es).

(** First-seen order: a label stands where its first occurrence does. *)
Fixpoint first_seen (l : list string) : list string :=
  match l with
  | [] => []
  | k :: rest => k :: filter (fun x => negb (String.eqb x k)) (first_seen rest)
  end.

(** The array an own key holds, [[]] for a key that is not own. *)
Definition current (c : mapping) (k : string) : list value :=
  match lookup c k with
  | Some data => data
  | None => []
  end.

(** A value that [flat()] keeps as it is. *)
Definition plain (v : value) : bool :=
  match v with
  | Arr _ => false
  | _ => true
  end.

(** ** Malformed shapes *)

(** The top-level shape is malformed: the body has no [results], or one of
    the objects in [results] has no [lexicalEntries]. *)
Inductive malformed : value -> Prop :=
| no_results (props : list (string * value)) :
    lookup props "results" = None ->
    malformed (Obj props)
| no_lexicalEntries (props : list (string * value)) (results : list value)
    (topLevelObject : list (string * value)) :
    lookup props "results" = Some (Arr results) ->
    In (Obj topLevelObject) results ->
    lookup topLevelObject "lexicalEntries" = None ->
    malformed (Obj props).

(** A lexical entry object without [lexicalCategory], or without [entries]. *)
Definition incomplete (lexicalEntry : list (string * value)) : Prop :=
  lookup lexicalEntry "lexicalCategory" = None
  \/ lookup lexicalEntry "entries" = None.

(** ** Sample responses *)

Definition provider_OUP : (string * value) :=
  ("metadata", Obj [("provider", Str "Oxford University Press")]).

(** A lexical entry labelled [pos] with one sense group of the given senses. *)
Definition sample_entry (pos : string) (senses : list value) : value :=
  Obj [ ("lexicalCategory", Obj [("text", Str pos)]);
        ("entries", Arr [Obj [("senses", Arr senses)]]) ].

Definition sample_sense (definitions : list string) : value :=
  Obj [("definitions", Arr (map Str definitions))].

(** One sense that has no [definitions] key. *)
Definition response_sense_without_definitions : value :=
  Obj [ provider_OUP;
        ("results",
         Arr [Obj [("lexicalEntries", Arr [sample_entry "Noun" [Obj []]])]]) ].

(** Scenario A: one verb with one definition (the body as the scenario
    gives it, without [metadata]). *)
Definition scenario_A : value :=
  Obj [ ("results",
         Arr [Obj [("lexicalEntries",
                    Arr [sample_entry "Verb" [sample_sense ["fix code"]]])]]) ].

(** Scenario C: two entries labelled ["Noun"] in different result objects. *)
Definition scenario_C : value :=
  Obj [ provider_OUP;
        ("results",
         Arr [ Obj [("lexicalEntries",
                     Arr [sample_entry "Noun" [sample_sense ["a"]]])];
               Obj [("lexicalEntries",
                     Arr [sample_entry "Noun" [sample_sense ["b"]]])] ]) ].

(** A well-formed response whose second label is the array index ["1"]. *)
Definition response_numeric_label : ApiResponse :=
  {| response_provider := "Oxford University Press";
     response_results :=
       [ {| result_entries :=
              [ {| entry_label := "Noun";
                   entry_groups :=
                     [ {| group_senses :=
                            Some [ {| sense_definitions := Some ["a"] |} ] |} ] |};
                {| entry_label := "1";
                   entry_groups :=
                     [ {| group_senses :=
                            Some [ {| sense_definitions := Some ["b"] |} ] |} ] |}
              ] |} ] |}.

(** A body whose [metadata] object has no [provider]. *)
Definition response_without_provider : value :=
  Obj [ ("metadata", Obj []); ("results", Arr []) ].

(** The line [`${index + 1}. ${definition}`] of a definition string. *)
Definition numbered_line (p : nat * string) : string :=
  (decimal (fst p + 1) ++ ". " ++ snd p)%string.

(** The title line logged for an expression and a provider text. *)
Definition title (expression provider : string) : string :=
  (newline ++ "Definitions of " ++ quote ++ expression ++ quote
     ++ ", as provided by " ++ provider)%string.

(** The body of scenario C as a well-formed response. *)
Definition response_C : ApiResponse :=
  {| response_provider := "Oxford University Press";
     response_results :=
       [ {| result_entries :=
              [ {| entry_label := "Noun";
                   entry_groups :=
                     [ {| group_senses :=
                            Some [ {| sense_definitions := Some ["a"] |} ] |} ] |}
              ] |};
         {| result_entries :=
              [ {| entry_label := "Noun";
                   entry_groups :=
                     [ {| group_senses :=
                            Some [ {| sense_definitions := Some ["b"] |} ] |} ] |}
              ] |} ] |}.

(** A verb, then a noun whose only sense group has no [senses] key. *)
Definition response_B : ApiResponse :=
  {| response_provider := "Oxford University Press";
     response_results :=
       [ {| result_entries :=
              [ {| entry_label := "Verb";
                   entry_groups :=
                     [ {| group_senses :=
                            Some [ {| sense_definitions := Some ["fix code"] |} ] |} ] |};
                {| entry_label := "Noun";
                   entry_groups := [ {| group_senses := None |} ] |}
              ] |} ] |}.

(** ** The expression (index.js, lines 50-58)

    Strings are UTF-8 text, a character of [string] being one byte: that
    is how the command line hands the arguments over and how the console
    receives what is logged. *)

(** [s.indexOf(c)] for a one-character [c]; [None] stands for [-1]. *)
Fixpoint indexOf (c : ascii) (s : string) : option nat :=
  match s with
  | EmptyString => None
  | String c' rest =>
      if Ascii.eqb c' c then Some 0 else option_map S (indexOf c rest)
  end.

(** The white space and line terminators [trim] removes, by their UTF-8
    bytes: U+0009 to U+000D and U+0020; U+00A0; U+1680, U+2000 to U+200A,
    U+2028, U+2029, U+202F, U+205F, U+3000 and U+FEFF. *)
Definition space1 (c : ascii) : bool :=
  let n := nat_of_ascii c in
  (Nat.leb 9 n && Nat.leb n 13 || Nat.eqb n 32)%bool.

Definition space2 (c1 c2 : ascii) : bool :=
  (Nat.eqb (nat_of_ascii c1) 194 && Nat.eqb (nat_of_ascii c2) 160)%bool.

Definition space3 (c1 c2 c3 : ascii) : bool :=
  let n1 := nat_of_ascii c1 in
  let n2 := nat_of_ascii c2 in
  let n3 := nat_of_ascii c3 in
  (Nat.eqb n1 225 && Nat.eqb n2 154 && Nat.eqb n3 128
   || Nat.eqb n1 226 && Nat.eqb n2 128
      && (Nat.leb 128 n3 && Nat.leb n3 138 || Nat.eqb n3 168 || Nat.eqb n3 169
          || Nat.eqb n3 175)
   || Nat.eqb n1 226 && Nat.eqb n2 129 && Nat.eqb n3 159
   || Nat.eqb n1 227 && Nat.eqb n2 128 && Nat.eqb n3 128
   || Nat.eqb n1 239 && Nat.eqb n2 187 && Nat.eqb n3 191)%bool.

(** Does the text start with a white-space character?  With [back] the
    bytes are those of the text read from its end. *)
Definition starts_with_space (back : bool) (l : list ascii) : bool :=
  match l with
  | [] => false
  | c1 :: r1 =>
      (space1 c1
       || match r1 with
          | [] => false
          | c2 :: r2 =>
              (if back then space2 c2 c1 else space2 c1 c2)
              || match r2 with
                 | [] => false
                 | c3 :: _ => if back then space3 c3 c2 c1 else space3 c1 c2 c3
                 end
          end)%bool
  end.

(** Drop the white space a text starts with. *)
Fixpoint strip (back : bool) (l : list ascii) : list ascii :=
  match l with
  | [] => l
  | c1 :: r1 =>
      if space1 c1 then strip back r1
      else
        match r1 with
        | [] => l
        | c2 :: r2 =>
            if (if back then space2 c2 c1 else space2 c1 c2)
            then strip back r2
            else
              match r2 with
              | [] => l
              | c3 :: r3 =>
                  if (if back then space3 c3 c2 c1 else space3 c1 c2 c3)
                  then strip back r3
                  else l
              end
        end
  end.

(** [String.prototype.trim]: white space removed at both ends. *)
Definition trim (s : string) : string :=
  string_of_list_ascii
    (rev (strip true (rev (strip false (list_ascii_of_string s))))).

(** [process.argv.slice(2).join(" ")], then the part before the first [#],
    trimmed, when there is a [#]. *)
Definition expression (argv : list string) : string :=
  let expression := join " " (skipn 2 argv) in
  let commentIndex := indexOf "#"%char expression in
  match commentIndex with
  | Some n => trim (substring 0 n expression)
  | None => expression
  end.

(** [config.url] (line 65): the expression is put in as it is. *)
Definition url (expression : string) : string :=
  ("https://od-api.oxforddictionaries.com/api/v2/entries/en/"
     ++ expression ++ "?fields=definitions")%string.

(** ** treatError (index.js, lines 180-212) *)

(** What [treatError] can be called with: an exception thrown inside
    [treatResponse], which is a [TypeError] and has neither a [response]
    nor a [code]; or the rejection of the request, an error object of
    which [treatError] reads [response], [code] and [message]. *)
Inductive exception : Type :=
| Thrown (e : error)
| Rejected (response code message : value).

(** What [console.log] was given: a text, or the error object itself. *)
Inductive entry : Type :=
| Line (text : string)
| Inspect (error : exception).

(** [ToBoolean]; the numbers [0] and [NaN] are the falsy ones. *)
Definition truthy (v : value) : bool :=
  match v with
  | Undefined | Null => false
  | Bool b => b
  | Num image => negb (String.eqb image "0" || String.eqb image "NaN")
  | Str s => negb (String.eqb s EmptyString)
  | Arr _ | Obj _ => true
  end.

(** U+26A0, the warning sign. *)
Definition warning : string :=
  String "226"%char (String "154"%char (String "160"%char EmptyString)).

(** [status], [statusText] are read off a truthy [response]; neither name
    is a property of a prototype.  [switch] compares with [===]: the
    status has to be the number. *)
Definition treatError (expression : string) (error : exception)
  (out : list entry) : list entry * result unit :=
  match error with
  | Thrown _ => (out ++ [Inspect error], Ok tt)
  | Rejected response code message =>
      if truthy response then
        match (status <- get response "status" ;;
               statusText <- get response "statusText" ;;
               s <- to_string status ;;
               t <- to_string statusText ;;
               Ok (status, s, t)) with
        | Throw e => (out, Throw e)
        | Ok (status, s, t) =>
            match status with
            | Num "404" =>
                (out ++ [ Line (warning ++ newline ++ "ERROR " ++ s ++ ": "
                                  ++ quote ++ expression ++ quote ++ " " ++ t
                                  ++ warning)%string;
                          Line ("Please check your spelling" ++ newline
                                  ++ warning)%string ],
                 Ok tt)
            | Num "400" | Num "403" =>
                (out ++ [ Line (warning ++ newline ++ "ERROR " ++ s ++ ": "
                                  ++ t ++ newline
                                  ++ "Check the APP_KEY and APP_ID in your .env file."
                                  ++ newline ++ warning)%string ],
                 Ok tt)
            | _ =>
                (out ++ [ Line (warning ++ newline ++ "ERROR " ++ s ++ " for "
                                  ++ quote ++ expression ++ quote ++ ": " ++ t
                                  ++ newline ++ warning)%string ],
                 Ok tt)
            end
        end
      else
        match code with
        | Str "ERR_HTTP_INVALID_HEADER_VALUE" =>
            match to_string message with
            | Throw e => (out, Throw e)
            | Ok m =>
                (out ++ [ Line (warning ++ newline ++ "ERROR: " ++ m)%string;
                          Line "Check that you have correctly created the .env file.";
                          Line ("Get your own key and id here: https://developer.oxforddictionaries.com"
                                  ++ newline ++ warning)%string ],
                 Ok tt)
            end
        | _ => (out ++ [Inspect error], Ok tt)
        end
  end.

(** ** The request (index.js, lines 216-218) *)

(** How the promise of [axios(config)] settles. *)
Inductive settled : Type :=
| Fulfilled (response : value)
| Failed (error : exception).

(** [axios(config).then(treatResponse).catch(treatError)]: [treatError]
    gets the rejection of the request, or what [treatResponse] throws. *)
Definition main (expression : string) (answer : settled)
  : list entry * result unit :=
  match answer with
  | Fulfilled response =>
      match treatResponse expression response [] with
      | (out, Ok _) => (map Line out, Ok tt)
      | (out, Throw e) => treatError expression (Thrown e) (map Line out)
      end
  | Failed error => treatError expression error []
  end.

(** ** Relations between collectors *)

(** [m] has every key of [c], in the same order and before any other key,
    and under each of them the array [c] has, possibly with more elements
    after it. *)
Definition grows (c m : mapping) : Prop :=
  (exists new, map fst m = map fst c ++ new)
  /\ forall k data, lookup c k = Some data ->
       exists more, lookup m k = Some (data ++ more).

(** The keys are pairwise distinct and none names a property of
    [Object.prototype]. *)
Definition sound (c : mapping) : Prop :=
  NoDup (map fst c)
  /\ forall k, In k (map fst c) -> inherited k = false.

(** A value that is not an object: [ToString] cannot throw on it. *)
Definition primitive (v : value) : bool :=
  match v with
  | Arr _ | Obj _ => false
  | _ => true
  end.

(** * Properties *)

(** ** Exceptions and array methods *)

Lemma error_unique (e : error) : e = TypeError.
Proof. destruct e; reflexivity. Qed.

Lemma reduce_app {A B : Type} (f : B -> A -> result B) (l1 l2 : list A) (init : B) :
  reduce f (l1 ++ l2) init = (acc <- reduce f l1 init ;; reduce f l2 acc).
Proof.
  revert init; induction l1 as [|x l1 IH]; intros init; simpl.
  - reflexivity.
  - destruct (f init x) as [acc|e]; simpl; [apply IH | reflexivity].
Qed.

(** A reduction over an array holding an element on which the callback
    throws whatever the accumulator is, throws: at that element or before. *)
Lemma reduce_throws {A B : Type} (f : B -> A -> result B) (l : list A) (x : A) :
  In x l -> (forall acc, f acc x = Throw TypeError) ->
  forall init, reduce f l init = Throw TypeError.
Proof.
  intros Hin Hx init.
  destruct (in_split _ _ Hin) as (pre & post & ->).
  rewrite reduce_app.
  destruct (reduce f pre init) as [acc|e]; simpl.
  - rewrite Hx; reflexivity.
  - rewrite (error_unique e); reflexivity.
Qed.

Lemma flat_app (a b : list value) : flat (a ++ b) = flat a ++ flat b.
Proof.
  induction a as [|x a IH]; simpl; [reflexivity|].
  destruct x; simpl; rewrite IH; try reflexivity.
  now rewrite app_assoc.
Qed.

Lemma flat_plain (l : list value) : forallb plain l = true -> flat l = l.
Proof.
  induction l as [|x l IH]; simpl; [reflexivity|].
  intros H; apply andb_prop in H as [Hx Hl].
  destruct x; simpl in *; try discriminate; now rewrite IH.
Qed.

Lemma flat_map_Arr (ls : list (list value)) : flat (map Arr ls) = List.concat ls.
Proof.
  induction ls as [|l ls IH]; simpl; [reflexivity | now rewrite IH].
Qed.

Lemma plain_strings (ds : list string) : forallb plain (map Str ds) = true.
Proof. induction ds; simpl; auto. Qed.

Lemma plain_sense_collects (s : Sense) : forallb plain (sense_collects s) = true.
Proof.
  unfold sense_collects; destruct (sense_definitions s);
    [apply plain_strings | reflexivity].
Qed.

Lemma plain_app (a b : list value) :
  forallb plain a = true -> forallb plain b = true ->
  forallb plain (a ++ b) = true.
Proof. intros Ha Hb; rewrite forallb_app, Ha, Hb; reflexivity. Qed.

(** ** The traversal on well-formed parts *)

Lemma treatSense_sense (array : list value) (s : Sense) :
  forallb plain array = true ->
  treatSense array (sense_value s) = Ok (array ++ sense_collects s).
Proof.
  intros Hp; unfold treatSense, sense_value, sense_collects.
  destruct (sense_definitions s) as [ds|]; simpl;
    rewrite flat_app, (flat_plain _ Hp); simpl.
  - now rewrite app_nil_r.
  - reflexivity.
Qed.

Lemma reduce_treatSense (ss : list Sense) (array : list value) :
  forallb plain array = true ->
  reduce treatSense (map sense_value ss) array
  = Ok (array ++ flat_map sense_collects ss).
Proof.
  revert array; induction ss as [|s ss IH]; intros array Hp; simpl.
  - now rewrite app_nil_r.
  - rewrite (treatSense_sense _ _ Hp); simpl.
    rewrite IH, app_assoc; [reflexivity|].
    apply plain_app; [assumption | apply plain_sense_collects].
Qed.

Lemma treatEntry_group (g : SenseGroup) :
  treatEntry (group_value g) = Ok (group_collects g).
Proof.
  unfold treatEntry, group_value, group_collects.
  destruct (group_senses g) as [ss|]; simpl; [|reflexivity].
  now rewrite reduce_treatSense.
Qed.

Lemma map_treatEntry_groups (gs : list SenseGroup) :
  map_result treatEntry (map group_value gs) = Ok (map group_collects gs).
Proof.
  induction gs as [|g gs IH]; simpl; [reflexivity|].
  now rewrite treatEntry_group, IH.
Qed.

(** ** The collector *)

Lemma lookup_assign_same (c : mapping) (k : string) (d : list value) :
  lookup (assign c k d) k = Some d.
Proof.
  induction c as [|[k' old] c IH]; simpl.
  - now rewrite String.eqb_refl.
  - destruct (String.eqb k k') eqn:E; simpl; rewrite E; [reflexivity | exact IH].
Qed.

Lemma lookup_assign_other (c : mapping) (k k' : string) (d : list value) :
  k' <> k -> lookup (assign c k d) k' = lookup c k'.
Proof.
  intros Hne; induction c as [|[k0 old] c IH]; simpl.
  - apply String.eqb_neq in Hne; now rewrite Hne.
  - destruct (String.eqb k k0) eqn:E; simpl.
    + apply String.eqb_eq in E; subst k0.
      apply String.eqb_neq in Hne; now rewrite Hne.
    + destruct (String.eqb k' k0); [reflexivity | exact IH].
Qed.

Lemma keys_assign (c : mapping) (k : string) (d : list value) :
  map fst (assign c k d)
  = if has_own c k then map fst c else map fst c ++ [k].
Proof.
  unfold has_own; induction c as [|[k' old] c IH]; simpl.
  - reflexivity.
  - destruct (String.eqb k k') eqn:E; simpl; [reflexivity|].
    rewrite IH; destruct (lookup c k); reflexivity.
Qed.

Lemma current_assign (c : mapping) (k k' : string) (d : list value) :
  current (assign c k d) k' = if String.eqb k' k then d else current c k'.
Proof.
  unfold current; destruct (String.eqb k' k) eqn:E.
  - apply String.eqb_eq in E; subst; now rewrite lookup_assign_same.
  - apply String.eqb_neq in E; now rewrite lookup_assign_other.
Qed.

Lemma has_own_assign (c : mapping) (k k' : string) (d : list value) :
  has_own (assign c k d) k' = (String.eqb k' k || has_own c k')%bool.
Proof.
  unfold has_own; destruct (String.eqb k' k) eqn:E; simpl.
  - apply String.eqb_eq in E; subst; now rewrite lookup_assign_same.
  - apply String.eqb_neq in E; now rewrite lookup_assign_other.
Qed.

(** ** treatLexicalEntry on a well-formed lexical entry *)

Lemma treatLexicalEntry_lexical (c : mapping) (e : LexicalEntry) :
  treatLexicalEntry c (lexical_value e)
  = match read c (entry_label e) with
    | Inherited => Throw TypeError
    | _ => Ok (assign c (entry_label e)
                 (current c (entry_label e) ++ entry_collects e))
    end.
Proof.
  unfold treatLexicalEntry, lexical_value; simpl.
  rewrite map_treatEntry_groups; simpl.
  rewrite flat_map_Arr, <- flat_map_concat_map.
  unfold read, current, entry_collects.
  destruct (lookup c (entry_label e)); [reflexivity|].
  destruct (inherited (entry_label e)); reflexivity.
Qed.

Lemma treatTopLevelObject_result (c : mapping) (r : ResultEntry) :
  treatTopLevelObject c (result_value r)
  = reduce treatLexicalEntry (map lexical_value (result_entries r)) c.
Proof. reflexivity. Qed.

Lemma reduce_results (rs : list ResultEntry) (c : mapping) :
  reduce treatTopLevelObject (map result_value rs) c
  = reduce treatLexicalEntry
      (map lexical_value (flat_map result_entries rs)) c.
Proof.
  revert c; induction rs as [|r rs IH]; intros c; [reflexivity|].
  cbn [map flat_map reduce].
  rewrite treatTopLevelObject_result, map_app, reduce_app.
  destruct (reduce treatLexicalEntry _ c) as [acc|err]; simpl;
    [apply IH | reflexivity].
Qed.

Lemma reduceResponse_response (a : ApiResponse) :
  reduceResponse (Obj [("data", response_value a)])
  = (m <- reduce treatLexicalEntry (map lexical_value (lexical_entries a)) [] ;;
     Ok (Obj [("provider", Str (response_provider a))], m)).
Proof.
  unfold reduceResponse, response_value, lexical_entries; simpl.
  now rewrite reduce_results.
Qed.

(** ** What the reduction accumulates *)

Lemma filter_absent_keys (p : string -> bool) (k : string) (l : list string) :
  p k = false ->
  filter p (filter (fun x => negb (String.eqb x k)) l) = filter p l.
Proof.
  intros Hk; induction l as [|x l IH]; simpl; [reflexivity|].
  destruct (String.eqb x k) eqn:E; simpl.
  - apply String.eqb_eq in E; subst x; now rewrite Hk.
  - now rewrite IH.
Qed.

Lemma filter_new_key (c : mapping) (k : string) (d : list value) (l : list string) :
  filter (fun x => negb (has_own (assign c k d) x)) l
  = filter (fun x => negb (has_own c x))
      (filter (fun x => negb (String.eqb x k)) l).
Proof.
  induction l as [|x l IH]; simpl; [reflexivity|].
  rewrite has_own_assign.
  destruct (String.eqb x k); simpl; [exact IH | now rewrite IH].
Qed.

Section Accumulation.

Variable k : string.

Lemma collected_under_cons (e : LexicalEntry) (es : list LexicalEntry) :
  collected_under k (e :: es)
  = (if String.eqb k (entry_label e) then entry_collects e else [])
      ++ collected_under k es.
Proof.
  unfold collected_under; simpl.
  rewrite (String.eqb_sym (entry_label e) k).
  destruct (String.eqb k (entry_label e)); reflexivity.
Qed.

(** Under each key, the reduction appends the definitions of the entries
    bearing that label, in encounter order. *)
Lemma reduce_current (es : list LexicalEntry) :
  forall c m,
    reduce treatLexicalEntry (map lexical_value es) c = Ok m ->
    current m k = current c k ++ collected_under k es.
Proof.
  induction es as [|e es IH]; intros c m; simpl.
  - intros [= <-]; now rewrite app_nil_r.
  - rewrite treatLexicalEntry_lexical, collected_under_cons.
    destruct (read c (entry_label e)); simpl; try discriminate;
      intros H; rewrite (IH _ _ H), current_assign, app_assoc;
      destruct (String.eqb k (entry_label e)) eqn:E;
      try (apply String.eqb_eq in E; subst k);
      try reflexivity; now rewrite app_nil_r.
Qed.

Lemma reduce_has_own (es : list LexicalEntry) :
  forall c m,
    reduce treatLexicalEntry (map lexical_value es) c = Ok m ->
    has_own m k
    = (has_own c k || existsb (String.eqb k) (map entry_label es))%bool.
Proof.
  induction es as [|e es IH]; intros c m; simpl.
  - intros [= <-]; now rewrite orb_false_r.
  - rewrite treatLexicalEntry_lexical.
    destruct (read c (entry_label e)); simpl; try discriminate;
      intros H; rewrite (IH _ _ H), has_own_assign;
      destruct (String.eqb k (entry_label e)), (has_own c k); reflexivity.
Qed.

End Accumulation.

(** The keys are created in first-seen order of the labels. *)
Lemma reduce_keys (es : list LexicalEntry) :
  forall c m,
    reduce treatLexicalEntry (map lexical_value es) c = Ok m ->
    map fst m
    = map fst c
        ++ filter (fun x => negb (has_own c x)) (first_seen (map entry_label es)).
Proof.
  induction es as [|e es IH]; intros c m; simpl.
  - intros [= <-]; now rewrite app_nil_r.
  - rewrite treatLexicalEntry_lexical.
    assert (Hstep : forall d,
      reduce treatLexicalEntry (map lexical_value es)
        (assign c (entry_label e) d) = Ok m ->
      map fst m
      = map fst c
          ++ filter (fun x => negb (has_own c x))
               (entry_label e
                  :: filter (fun x => negb (String.eqb x (entry_label e)))
                       (first_seen (map entry_label es)))).
    { intros d H; rewrite (IH _ _ H), keys_assign, filter_new_key; simpl.
      destruct (has_own c (entry_label e)) eqn:E; simpl.
      - reflexivity.
      - now rewrite <- app_assoc. }
    destruct (read c (entry_label e)); simpl; try discriminate; apply Hstep.
Qed.

(** The reduction of a well-formed response returns a mapping when no label
    names a property of [Object.prototype]. *)
Lemma reduce_returns (es : list LexicalEntry) :
  (forall e, In e es -> inherited (entry_label e) = false) ->
  forall c, exists m,
    reduce treatLexicalEntry (map lexical_value es) c = Ok m.
Proof.
  induction es as [|e es IH]; intros Hes c; simpl.
  - now exists c.
  - rewrite treatLexicalEntry_lexical; unfold read.
    rewrite (Hes e (or_introl eq_refl)).
    destruct (lookup c (entry_label e)); simpl;
      apply IH; intros e' He'; apply Hes; now right.
Qed.

(** ** Senses without definitions *)

(** C1.  A sense object without a [definitions] key raises no error, but it
    does not contribute zero entries: [treatSense] appends the one element
    [undefined] for it.  On a response whose only sense has no
    [definitions], [treatEntry] returns [[undefined]] and the text logged
    for the category is the line [1. undefined]. *)
Theorem absent_definitions_collects_undefined
  (sense : list (string * value)) (array : list value) :
  lookup sense "definitions" = None ->
  treatSense array (Obj sense) = Ok (flat array ++ [Undefined])
  /\ treatEntry (Obj [("senses", Arr [Obj sense])]) = Ok [Undefined]
  /\ render "so" response_sense_without_definitions
     = ([ banner;
          (newline ++ "Definitions of " ++ quote ++ "so" ++ quote
             ++ ", as provided by Oxford University Press")%string;
          (newline ++ "# Noun" ++ newline ++ "1. undefined" ++ newline)%string;
          banner ],
        Ok tt).
Proof.
  intros H; repeat split.
  - unfold treatSense; simpl; rewrite H; simpl.
    now rewrite flat_app.
  - unfold treatEntry, treatSense; simpl; rewrite H; reflexivity.
Qed.

Lemma absent_definitions_collects_undefined_witness :
  treatSense [Str "a"] (Obj []) = Ok (flat [Str "a"] ++ [Undefined])
  /\ treatEntry (Obj [("senses", Arr [Obj []])]) = Ok [Undefined].
Proof.
  destruct (absent_definitions_collects_undefined [] [Str "a"] eq_refl)
    as (H1 & H2 & _).
  split; [exact H1 | exact H2].
Defined.

(** ** Malformed responses *)

Lemma treatTopLevelObject_no_lexicalEntries
  (topLevelObject : list (string * value)) (collector : mapping) :
  lookup topLevelObject "lexicalEntries" = None ->
  treatTopLevelObject collector (Obj topLevelObject) = Throw TypeError.
Proof.
  intros H; unfold treatTopLevelObject; simpl; rewrite H; reflexivity.
Qed.

(** C2.  When [results] is absent from the response body, or
    [lexicalEntries] is absent from one of the objects in [results], the
    render entry point throws (a [TypeError], the exception the program
    raises for this) and nothing has been logged. *)
Theorem malformed_response_throws (expression : string) (data : value) :
  malformed data ->
  render expression data = ([], Throw TypeError).
Proof.
  intros [props H | props results topLevelObject Hr Hin Hl];
    unfold render, treatResponse, reduceResponse; simpl.
  - rewrite H; destruct (lookup props "metadata"); reflexivity.
  - rewrite Hr; simpl.
    rewrite (reduce_throws treatTopLevelObject results (Obj topLevelObject) Hin).
    + destruct (lookup props "metadata"); reflexivity.
    + intros acc; now apply treatTopLevelObject_no_lexicalEntries.
Qed.

(** The input [{}], which has no [results] key, fails. *)
Lemma malformed_response_throws_witness :
  render "debug" (Obj []) = ([], Throw TypeError).
Proof.
  apply (malformed_response_throws "debug" (Obj [])).
  apply no_results; reflexivity.
Defined.

(** ** Incomplete lexical entries *)

Lemma treatLexicalEntry_incomplete
  (lexicalEntry : list (string * value)) (collector : mapping) :
  incomplete lexicalEntry ->
  treatLexicalEntry collector (Obj lexicalEntry) = Throw TypeError.
Proof.
  intros [H | H]; unfold treatLexicalEntry; simpl; rewrite H; simpl.
  - destruct (lookup lexicalEntry "entries"); reflexivity.
  - destruct (lookup lexicalEntry "lexicalCategory") as [lexicalCategory|];
      simpl; [|reflexivity].
    destruct (get lexicalCategory "text") as [partOfSpeech|e]; simpl;
      [reflexivity | now rewrite (error_unique e)].
Qed.

(** C10.  A lexical entry without [lexicalCategory], or without [entries],
    makes the reducer throw: [treatLexicalEntry] throws on it whatever the
    collector holds, and a response holding such an entry in one of its
    [lexicalEntries] arrays makes the entry point throw with nothing
    logged.  Neither key has a default. *)
Theorem incomplete_lexical_entry_throws
  (expression : string) (collector : mapping)
  (lexicalEntry topLevelObject props : list (string * value))
  (lexicalEntries results : list value) :
  incomplete lexicalEntry ->
  lookup props "results" = Some (Arr results) ->
  In (Obj topLevelObject) results ->
  lookup topLevelObject "lexicalEntries" = Some (Arr lexicalEntries) ->
  In (Obj lexicalEntry) lexicalEntries ->
  treatLexicalEntry collector (Obj lexicalEntry) = Throw TypeError
  /\ render expression (Obj props) = ([], Throw TypeError).
Proof.
  intros Hinc Hr Hin Hl Hin'; split.
  - now apply treatLexicalEntry_incomplete.
  - unfold render, treatResponse, reduceResponse; simpl; rewrite Hr; simpl.
    rewrite (reduce_throws treatTopLevelObject results (Obj topLevelObject) Hin).
    + destruct (lookup props "metadata"); reflexivity.
    + intros acc; unfold treatTopLevelObject; simpl; rewrite Hl; simpl.
      apply (reduce_throws treatLexicalEntry _ (Obj lexicalEntry) Hin').
      intros acc'; now apply treatLexicalEntry_incomplete.
Qed.

Lemma incomplete_lexical_entry_throws_witness :
  treatLexicalEntry [] (Obj [("entries", Arr [])]) = Throw TypeError
  /\ render "debug"
       (Obj [("results",
              Arr [Obj [("lexicalEntries", Arr [Obj [("entries", Arr [])]])]])])
     = ([], Throw TypeError).
Proof.
  apply (incomplete_lexical_entry_throws "debug" []
           [("entries", Arr [])]
           [("lexicalEntries", Arr [Obj [("entries", Arr [])]])]
           [("results",
             Arr [Obj [("lexicalEntries", Arr [Obj [("entries", Arr [])]])]])]
           [Obj [("entries", Arr [])]]
           [Obj [("lexicalEntries", Arr [Obj [("entries", Arr [])]])]]).
  - left; reflexivity.
  - reflexivity.
  - left; reflexivity.
  - reflexivity.
  - left; reflexivity.
Defined.

(** ** Keys *)

Lemma filter_all {A : Type} (p : A -> bool) (l : list A) :
  (forall x, In x l -> p x = true) -> filter p l = l.
Proof.
  induction l as [|x l IH]; simpl; intros H; [reflexivity|].
  rewrite (H x (or_introl eq_refl)), IH; [reflexivity|].
  intros y Hy; apply H; now right.
Qed.

Lemma indices_none (names : list string) :
  (forall k, In k names -> array_index k = None) -> indices names = [].
Proof.
  induction names as [|k names IH]; simpl; intros H; [reflexivity|].
  rewrite (H k (or_introl eq_refl)).
  apply IH; intros k' Hk'; apply H; now right.
Qed.

(** Without array-index keys, [Object.keys] is the creation order. *)
Lemma Object_keys_creation_order (collection : mapping) :
  (forall k, In k (map fst collection) -> array_index k = None) ->
  Object_keys collection = map fst collection.
Proof.
  intros H; unfold Object_keys.
  rewrite (indices_none _ H); simpl.
  apply filter_all; intros k Hk; unfold is_index; now rewrite (H k Hk).
Qed.

Lemma first_seen_In (l : list string) (k : string) :
  In k (first_seen l) -> In k l.
Proof.
  induction l as [|x l IH]; simpl; [tauto|].
  intros [H | H]; [now left | right].
  apply filter_In in H as [H _]; now apply IH.
Qed.

Lemma first_seen_complete (l : list string) (k : string) :
  In k l -> In k (first_seen l).
Proof.
  induction l as [|x l IH]; simpl; [tauto|].
  destruct (String.eqb k x) eqn:E.
  - apply String.eqb_eq in E; now left.
  - intros [H | H]; [now left | right].
    apply filter_In; split; [now apply IH | now rewrite E].
Qed.

Lemma first_seen_NoDup (l : list string) : NoDup (first_seen l).
Proof.
  induction l as [|x l IH]; simpl; constructor.
  - intros H; apply filter_In in H as [_ H].
    now rewrite String.eqb_refl in H.
  - now apply NoDup_filter.
Qed.

Lemma insert_index_HdRel (a p : N * string) (l : list (N * string)) :
  HdRel index_le a l -> index_le a p -> HdRel index_le a (insert_index p l).
Proof.
  intros Hl Hp; destruct l as [|q l]; simpl; [now constructor|].
  destruct (fst p <=? fst q)%N; constructor; [assumption|].
  now inversion Hl.
Qed.

Lemma insert_index_Sorted (p : N * string) (l : list (N * string)) :
  Sorted index_le l -> Sorted index_le (insert_index p l).
Proof.
  induction 1 as [|q l Hs IH Hd]; simpl.
  - repeat constructor.
  - destruct (fst p <=? fst q)%N eqn:E.
    + apply N.leb_le in E; repeat constructor; assumption.
    + apply N.leb_gt in E; constructor; [assumption|].
      apply insert_index_HdRel; [assumption | unfold index_le; lia].
Qed.

(** The array-index keys come out in ascending order. *)
Lemma indices_Sorted (names : list string) : Sorted index_le (indices names).
Proof.
  induction names as [|k names IH]; simpl; [constructor|].
  destruct (array_index k); [now apply insert_index_Sorted | assumption].
Qed.

Lemma insert_index_In (p q : N * string) (l : list (N * string)) :
  In q (insert_index p l) <-> q = p \/ In q l.
Proof.
  induction l as [|r l IH]; simpl; [intuition|].
  destruct (fst p <=? fst r)%N; simpl; [intuition|].
  rewrite IH; intuition.
Qed.

Lemma indices_In (names : list string) (n : N) (k : string) :
  In (n, k) (indices names) <-> In k names /\ array_index k = Some n.
Proof.
  induction names as [|x names IH]; simpl; [intuition|].
  destruct (array_index x) as [nx|] eqn:E.
  - rewrite insert_index_In, IH; split.
    + intros [[= -> ->] | [H1 H2]]; auto.
    + intros [[-> | H1] H2]; [left | right; auto].
      rewrite E in H2; now injection H2 as ->.
  - rewrite IH; split; [intuition|].
    intros [[-> | H1] H2]; [congruence | auto].
Qed.

(** [Object.keys] lists exactly the own keys. *)
Lemma Object_keys_In (collection : mapping) (k : string) :
  In k (Object_keys collection) <-> In k (map fst collection).
Proof.
  unfold Object_keys; rewrite in_app_iff, filter_In, in_map_iff.
  unfold is_index; split.
  - intros [([n k'] & <- & H) | [H _]]; [|assumption].
    now apply indices_In in H.
  - intros H; destruct (array_index k) as [n|] eqn:E.
    + left; exists (n, k); split; [reflexivity | now apply indices_In].
    + right; now split.
Qed.

Lemma existsb_eqb_In (k : string) (l : list string) :
  In k l -> existsb (String.eqb k) l = true.
Proof.
  intros H; apply existsb_exists; exists k; split;
    [assumption | apply String.eqb_refl].
Qed.

(** The mapping a well-formed response reduces to: keys in first-seen
    order, each holding the definitions collected under its label. *)
Lemma reduceResponse_mapping (a : ApiResponse) (metadata : value) (m : mapping) :
  reduceResponse (Obj [("data", response_value a)]) = Ok (metadata, m) ->
  map fst m = first_seen (labels a)
  /\ forall k, In k (labels a) ->
       lookup m k = Some (collected_under k (lexical_entries a)).
Proof.
  rewrite reduceResponse_response.
  destruct (reduce treatLexicalEntry _ []) as [m'|e] eqn:E; simpl;
    [|discriminate].
  intros [= _ <-]; split.
  - rewrite (reduce_keys _ _ _ E); simpl.
    apply filter_all; reflexivity.
  - intros k Hk.
    pose proof (reduce_current k _ _ _ E) as Hc.
    pose proof (reduce_has_own k _ _ _ E) as Ho.
    fold (labels a) in Ho; rewrite (existsb_eqb_In _ _ Hk) in Ho.
    unfold current, has_own in *; simpl in *.
    destruct (lookup m' k); [now rewrite Hc | discriminate].
Qed.

(** A well-formed response none of whose labels names a property of
    [Object.prototype] reduces to a mapping. *)
Lemma reduceResponse_returns (a : ApiResponse) :
  (forall k, In k (labels a) -> inherited k = false) ->
  exists m,
    reduceResponse (Obj [("data", response_value a)])
    = Ok (Obj [("provider", Str (response_provider a))], m).
Proof.
  intros H; rewrite reduceResponse_response.
  destruct (reduce_returns (lexical_entries a)) with (c := @nil (string * list value))
    as [m Hm].
  - intros e He; apply H; unfold labels; now apply in_map.
  - exists m; now rewrite Hm.
Qed.

(** ** Order of the keys *)

(** C3, as the code has it.  For a well-formed response none of whose
    part-of-speech labels is an array index, the keys of the mapping, as
    [Object.keys] lists them, are the labels in first-seen order, and the
    renderer goes through the categories in that order. *)
Theorem keys_in_first_seen_order
  (a : ApiResponse) (metadata : value) (m : mapping) :
  reduceResponse (Obj [("data", response_value a)]) = Ok (metadata, m) ->
  (forall k, In k (labels a) -> array_index k = None) ->
  Object_keys m = first_seen (labels a)
  /\ renderDefinitions m
     = reduce (renderCategory m) (first_seen (labels a)) EmptyString.
Proof.
  intros Hm Hk.
  destruct (reduceResponse_mapping _ _ _ Hm) as [Hkeys _].
  assert (Object_keys m = first_seen (labels a)) as Ho.
  { rewrite Object_keys_creation_order; [assumption|].
    rewrite Hkeys; intros k Hin; apply Hk; now apply first_seen_In. }
  split; [assumption|].
  unfold renderDefinitions; now rewrite Ho.
Qed.

Lemma keys_in_first_seen_order_witness :
  Object_keys [("Verb", [Str "fix code"]); ("Noun", [])]
  = first_seen (labels response_B)
  /\ renderDefinitions [("Verb", [Str "fix code"]); ("Noun", [])]
     = reduce (renderCategory [("Verb", [Str "fix code"]); ("Noun", [])])
         (first_seen (labels response_B)) EmptyString.
Proof.
  apply (keys_in_first_seen_order response_B
           (Obj [("provider", Str "Oxford University Press")])).
  - reflexivity.
  - intros k [<- | [<- | []]]; reflexivity.
Defined.

(** C3 as stated fails on a label that is an array index: with the labels
    ["Noun"] then ["1"], [Object.keys] lists ["1"] before ["Noun"], and the
    block of ["1"] is rendered first. *)
Lemma numeric_label_is_listed_first :
  reduceResponse (Obj [("data", response_value response_numeric_label)])
  = Ok (Obj [("provider", Str "Oxford University Press")],
        [("Noun", [Str "a"]); ("1", [Str "b"])])
  /\ first_seen (labels response_numeric_label) = ["Noun"; "1"]
  /\ Object_keys [("Noun", [Str "a"]); ("1", [Str "b"])] = ["1"; "Noun"]
  /\ renderDefinitions [("Noun", [Str "a"]); ("1", [Str "b"])]
     = Ok (newline ++ "# 1" ++ newline ++ "1. b" ++ newline
             ++ newline ++ "# Noun" ++ newline ++ "1. a" ++ newline)%string
  /\ Object_keys [("Noun", [Str "a"]); ("1", [Str "b"])]
     <> first_seen (labels response_numeric_label).
Proof. repeat split; discriminate. Qed.

(** ** Merging under one key *)

Lemma response_C_value : response_value response_C = scenario_C.
Proof. reflexivity. Qed.

(** C4.  In the mapping a response reduces to, the key of a label holds
    the definitions of all lexical entries bearing that label, concatenated
    in encounter order across result objects, nothing removed.  In
    scenario C the two ["Noun"] entries with definitions [a] and [b] give
    the mapping [{"Noun": ["a", "b"]}] and the lines [1. a], [2. b]. *)
Theorem same_label_definitions_concatenated
  (a : ApiResponse) (metadata : value) (m : mapping) (k : string) :
  reduceResponse (Obj [("data", response_value a)]) = Ok (metadata, m) ->
  In k (labels a) ->
  lookup m k = Some (collected_under k (lexical_entries a))
  /\ reduceResponse (Obj [("data", scenario_C)])
     = Ok (Obj [("provider", Str "Oxford University Press")],
           [("Noun", [Str "a"; Str "b"])])
  /\ renderDefinitions [("Noun", [Str "a"; Str "b"])]
     = Ok (newline ++ "# Noun" ++ newline
             ++ "1. a" ++ newline ++ "2. b" ++ newline)%string.
Proof.
  intros Hm Hk; split; [|split; reflexivity].
  destruct (reduceResponse_mapping _ _ _ Hm) as [_ H]; now apply H.
Qed.

Lemma same_label_definitions_concatenated_witness :
  lookup [("Noun", [Str "a"; Str "b"])] "Noun"
  = Some (collected_under "Noun" (lexical_entries response_C)).
Proof.
  apply (same_label_definitions_concatenated response_C
           (Obj [("provider", Str "Oxford University Press")])
           [("Noun", [Str "a"; Str "b"])] "Noun").
  - reflexivity.
  - left; reflexivity.
Defined.

(** ** Sense groups without senses *)

Lemma collected_under_nil (k : string) (es : list LexicalEntry) :
  (forall e, In e es -> entry_label e = k ->
     forall g, In g (entry_groups e) -> group_senses g = None) ->
  collected_under k es = [].
Proof.
  intros H; unfold collected_under.
  induction es as [|e es IH]; simpl; [reflexivity|].
  assert (IH' : flat_map entry_collects
                  (filter (fun e => String.eqb (entry_label e) k) es) = []).
  { apply IH; intros e' He'; apply H; now right. }
  destruct (String.eqb (entry_label e) k) eqn:E; simpl; [|exact IH'].
  rewrite IH', app_nil_r.
  apply String.eqb_eq in E.
  pose proof (H e (or_introl eq_refl) E) as Hg.
  unfold entry_collects.
  induction (entry_groups e) as [|g gs IHg]; simpl; [reflexivity|].
  unfold group_collects at 1; rewrite (Hg g (or_introl eq_refl)); simpl.
  apply IHg; intros g' Hg'; apply Hg; now right.
Qed.

(** C6.  A sense group object without a [senses] key is treated as having
    no senses: [treatEntry] returns the empty array for it and does not
    throw.  In the mapping of a well-formed response, a category whose
    lexical entries hold only such sense groups has the empty list, and
    the renderer adds nothing for it. *)
Theorem absent_senses_contribute_nothing
  (group : list (string * value))
  (a : ApiResponse) (metadata : value) (m : mapping) (k : string) :
  lookup group "senses" = None ->
  reduceResponse (Obj [("data", response_value a)]) = Ok (metadata, m) ->
  In k (labels a) ->
  (forall e, In e (lexical_entries a) -> entry_label e = k ->
     forall g, In g (entry_groups e) -> group_senses g = None) ->
  treatEntry (Obj group) = Ok []
  /\ lookup m k = Some []
  /\ forall definitions, renderCategory m definitions k = Ok definitions.
Proof.
  intros Hg Hm Hk Honly.
  assert (Hl : lookup m k = Some []).
  { destruct (reduceResponse_mapping _ _ _ Hm) as [_ H].
    rewrite (H k Hk), collected_under_nil; auto. }
  split; [|split].
  - unfold treatEntry; simpl; rewrite Hg; reflexivity.
  - exact Hl.
  - intros definitions; unfold renderCategory; now rewrite Hl.
Qed.

Lemma absent_senses_contribute_nothing_witness :
  treatEntry (Obj []) = Ok []
  /\ lookup [("Verb", [Str "fix code"]); ("Noun", [])] "Noun" = Some []
  /\ forall definitions,
       renderCategory [("Verb", [Str "fix code"]); ("Noun", [])]
         definitions "Noun" = Ok definitions.
Proof.
  apply (absent_senses_contribute_nothing []
           response_B (Obj [("provider", Str "Oxford University Press")])
           [("Verb", [Str "fix code"]); ("Noun", [])] "Noun").
  - reflexivity.
  - reflexivity.
  - right; left; reflexivity.
  - intros e [<- | [<- | []]]; simpl; try discriminate.
    intros _ g [<- | []]; reflexivity.
Defined.

(** ** Empty categories *)

Lemma reduce_skips {A B : Type} (f : B -> A -> result B) (p : A -> bool)
  (l : list A) :
  (forall x acc, p x = false -> f acc x = Ok acc) ->
  forall init, reduce f l init = reduce f (filter p l) init.
Proof.
  intros H; induction l as [|x l IH]; intros init; simpl; [reflexivity|].
  destruct (p x) eqn:E; simpl.
  - destruct (f init x); simpl; [apply IH | reflexivity].
  - rewrite (H x init E); simpl; apply IH.
Qed.

(** C5.  A category whose list is empty adds nothing to the rendered text:
    the callback of [forEach] returns the text unchanged, no header and
    no numbered line, and the whole text is the one obtained by going
    through the other categories only. *)
Theorem empty_category_renders_nothing
  (collection : mapping) (category : string) :
  lookup collection category = Some [] ->
  (forall definitions,
     renderCategory collection definitions category = Ok definitions)
  /\ renderDefinitions collection
     = reduce (renderCategory collection)
         (filter (fun k => negb (String.eqb k category))
            (Object_keys collection))
         EmptyString.
Proof.
  intros H.
  assert (Hskip : forall definitions,
            renderCategory collection definitions category = Ok definitions).
  { intros definitions; unfold renderCategory; now rewrite H. }
  split; [exact Hskip|].
  unfold renderDefinitions; apply reduce_skips.
  intros k acc Hk; apply negb_false_iff, String.eqb_eq in Hk; subst k.
  apply Hskip.
Qed.

Lemma empty_category_renders_nothing_witness :
  (forall definitions,
     renderCategory [("Verb", [Str "fix code"]); ("Noun", [])]
       definitions "Noun" = Ok definitions)
  /\ renderDefinitions [("Verb", [Str "fix code"]); ("Noun", [])]
     = Ok (newline ++ "# Verb" ++ newline ++ "1. fix code" ++ newline)%string.
Proof.
  destruct (empty_category_renders_nothing
              [("Verb", [Str "fix code"]); ("Noun", [])] "Noun" eq_refl)
    as [H1 H2].
  split; [exact H1 | rewrite H2; reflexivity].
Defined.

(** ** The renderer keeps no state *)

Lemma string_app_nil_r (s : string) : (s ++ EmptyString)%string = s.
Proof. induction s as [|c s IH]; simpl; [reflexivity | now rewrite IH]. Qed.

(** C7.  What the text renderer logs, and whether it throws, depends on
    the mapping, the expression and the metadata only, not on what was
    logged before: a second call on the same mapping logs the same lines
    as the first.  Within a call, the block of a category does not depend
    on the text rendered before it. *)
Theorem renderText_is_pure
  (expression : string) (metadata : value) (collection : mapping)
  (out : console) :
  let lines := fst (renderText expression metadata collection []) in
  let first := renderText expression metadata collection out in
  let second := renderText expression metadata collection (fst first) in
  fst first = out ++ lines
  /\ fst second = (out ++ lines) ++ lines
  /\ snd first = snd (renderText expression metadata collection [])
  /\ snd second = snd first
  /\ forall definitions category,
       renderCategory collection definitions category
       = (block <- renderCategory collection EmptyString category ;;
          Ok (definitions ++ block)%string).
Proof.
  assert (Hblock : forall definitions category,
            renderCategory collection definitions category
            = (block <- renderCategory collection EmptyString category ;;
               Ok (definitions ++ block)%string)).
  { intros definitions category; unfold renderCategory.
    destruct (lookup collection category) as [[|x data]|]; simpl;
      try (now rewrite string_app_nil_r).
    destruct (to_string x); simpl; [|reflexivity].
    destruct (catDefs 1 data); reflexivity. }
  unfold renderText.
  destruct (renderDefinitions collection) as [definitions|e]; simpl.
  - destruct (get metadata "provider") as [provider|e]; simpl.
    + destruct (to_string provider) as [text|e]; simpl;
        rewrite <- ?app_assoc; simpl; repeat split; auto.
    + repeat split; auto.
  - rewrite !app_nil_r; repeat split; auto.
Qed.

(** ** Numbered lines *)

Lemma catDefs_strings (ds : list string) (index : nat) :
  catDefs index (map Str ds)
  = Ok (map numbered_line (combine (seq index (List.length ds)) ds)).
Proof.
  revert index; induction ds as [|d ds IH]; intros index; simpl;
    [reflexivity|].
  now rewrite IH.
Qed.

(** C8.  Scenario A reduces to the mapping [{"Verb": ["fix code"]}] and
    renders as the block [# Verb], [1. fix code].  In general the block of
    a category with definition strings is its header followed by one line
    per definition, in list order, numbered from 1. *)
Theorem scenario_A_and_numbering
  (category : string) (d : string) (ds : list string)
  (others : mapping) (definitions : string) :
  reduceResponse (Obj [("data", scenario_A)])
  = Ok (Undefined, [("Verb", [Str "fix code"])])
  /\ renderDefinitions [("Verb", [Str "fix code"])]
     = Ok (newline ++ "# Verb" ++ newline ++ "1. fix code" ++ newline)%string
  /\ renderCategory ((category, map Str (d :: ds)) :: others)
       definitions category
     = Ok (definitions ++ newline ++ "# " ++ category ++ newline
             ++ join newline
                  (map numbered_line
                     (combine (seq 0 (List.length (d :: ds))) (d :: ds)))
             ++ newline)%string
  /\ numbered_line (0, d) = ("1. " ++ d)%string.
Proof.
  split; [reflexivity | split; [reflexivity | split; [|reflexivity]]].
  unfold renderCategory; cbn [lookup]; rewrite String.eqb_refl.
  cbn [map]; rewrite <- (map_cons Str d ds), catDefs_strings; reflexivity.
Qed.

(** ** Metadata *)

(** C9, as the code has it.  A body without [metadata] makes the entry
    point throw, whatever [results] holds; when the reduction and the
    rendering of the categories succeed, the opening banner has been
    logged by then.  A body whose [metadata] is an object without
    [provider] does not throw: the title names the provider [undefined]. *)
Theorem absent_metadata_throws
  (expression : string) (props : list (string * value)) :
  (lookup props "metadata" = None ->
   snd (render expression (Obj props)) = Throw TypeError
   /\ forall results m definitions,
        lookup props "results" = Some (Arr results) ->
        reduce treatTopLevelObject results [] = Ok m ->
        renderDefinitions m = Ok definitions ->
        render expression (Obj props) = ([banner], Throw TypeError))
  /\ (forall metadata results m definitions,
        lookup props "metadata" = Some (Obj metadata) ->
        lookup metadata "provider" = None ->
        lookup props "results" = Some (Arr results) ->
        reduce treatTopLevelObject results [] = Ok m ->
        renderDefinitions m = Ok definitions ->
        render expression (Obj props)
        = ([banner; title expression "undefined"; definitions; banner],
           Ok tt)).
Proof.
  split.
  - intros Hmd; split.
    + unfold render, treatResponse, reduceResponse; simpl; rewrite Hmd; simpl.
      destruct (lookup props "results") as [results|]; simpl; [|reflexivity].
      destruct (elements results) as [l|e]; simpl;
        [|now rewrite (error_unique e)].
      destruct (reduce treatTopLevelObject l []) as [m|e]; simpl;
        [|now rewrite (error_unique e)].
      unfold renderText.
      destruct (renderDefinitions m) as [definitions|e]; simpl;
        [reflexivity | now rewrite (error_unique e)].
    + intros results m definitions Hr Hm Hd.
      unfold render, treatResponse, reduceResponse; simpl.
      rewrite Hmd, Hr; simpl; rewrite Hm; simpl.
      unfold renderText; rewrite Hd; reflexivity.
  - intros metadata results m definitions Hmd Hp Hr Hm Hd.
    unfold render, treatResponse, reduceResponse; simpl.
    rewrite Hmd, Hr; simpl; rewrite Hm; simpl.
    unfold renderText; rewrite Hd; simpl; rewrite Hp; reflexivity.
Qed.

Lemma absent_metadata_throws_witness :
  snd (render "debug" scenario_A) = Throw TypeError
  /\ render "debug" scenario_A = ([banner], Throw TypeError).
Proof.
  destruct (absent_metadata_throws "debug"
              [("results",
                Arr [Obj [("lexicalEntries",
                           Arr [sample_entry "Verb"
                                  [sample_sense ["fix code"]]])]])])
    as [H _].
  destruct (H eq_refl) as [H1 H2].
  split; [exact H1|].
  apply (H2 [Obj [("lexicalEntries",
                   Arr [sample_entry "Verb" [sample_sense ["fix code"]]])]]
           [("Verb", [Str "fix code"])]
           (newline ++ "# Verb" ++ newline ++ "1. fix code" ++ newline)%string);
    reflexivity.
Defined.

(** C9 as stated fails on a body whose [metadata] has no [provider]: the
    entry point returns, having logged a title that names the provider
    [undefined]. *)
Lemma missing_provider_does_not_throw :
  render "debug" response_without_provider
  = ([banner; title "debug" "undefined"; EmptyString; banner], Ok tt).
Proof. reflexivity. Qed.

(** * Further properties *)

(** ** What a reduction step does to the collector *)

Lemma reduce_invariant {A B : Type} (P : B -> Prop) (f : B -> A -> result B) :
  (forall acc x acc', P acc -> f acc x = Ok acc' -> P acc') ->
  forall l init m, P init -> reduce f l init = Ok m -> P m.
Proof.
  intros Hf; induction l as [|x l IH]; intros init m Hi; simpl.
  - now intros [= <-].
  - destruct (f init x) as [acc|e] eqn:E; simpl; [|discriminate].
    apply IH; now apply (Hf init x).
Qed.

Lemma has_own_In {A : Type} (c : list (string * A)) (k : string) :
  has_own c k = true <-> In k (map fst c).
Proof.
  unfold has_own; induction c as [|[k' v] c IH]; simpl.
  - split; [discriminate | tauto].
  - destruct (String.eqb k k') eqn:E.
    + apply String.eqb_eq in E; subst; split; auto.
    + apply String.eqb_neq in E; rewrite IH; split; [auto|].
      intros [H | H]; [congruence | assumption].
Qed.

(** A step that returns has stored, under one key that is own or not
    inherited, the array that was there followed by some definitions. *)
Lemma treatLexicalEntry_assigns (c c' : mapping) (lexicalEntry : value) :
  treatLexicalEntry c lexicalEntry = Ok c' ->
  exists key definitions,
    c' = assign c key (current c key ++ definitions)
    /\ (has_own c key = false -> inherited key = false).
Proof.
  unfold treatLexicalEntry.
  destruct (get lexicalEntry "entries") as [entries|]; simpl; [|discriminate].
  destruct (get lexicalEntry "lexicalCategory") as [lexicalCategory|]; simpl;
    [|discriminate].
  destruct (get lexicalCategory "text") as [partOfSpeech|]; simpl;
    [|discriminate].
  destruct (elements entries) as [l|]; simpl; [|discriminate].
  destruct (map_result treatEntry l) as [arrays|]; simpl; [|discriminate].
  destruct (to_string partOfSpeech) as [key|]; simpl; [|discriminate].
  unfold read, current, has_own.
  destruct (lookup c key) as [data|] eqn:E.
  - intros [= <-]; exists key, (flat (map Arr arrays)); rewrite E.
    split; [reflexivity | discriminate].
  - destruct (inherited key) eqn:I; [discriminate|].
    intros [= <-]; exists key, (flat (map Arr arrays)); rewrite E.
    split; [reflexivity | intros _; exact I].
Qed.



(** ** The collector only grows *)

Lemma grows_refl (c : mapping) : grows c c.
Proof.
  split.
  - exists []; now rewrite app_nil_r.
  - intros k data H; exists []; now rewrite app_nil_r.
Qed.

Lemma grows_trans (a b c : mapping) : grows a b -> grows b c -> grows a c.
Proof.
  intros [[n1 K1] L1] [[n2 K2] L2]; split.
  - exists (n1 ++ n2); now rewrite K2, K1, app_assoc.
  - intros k data H.
    destruct (L1 _ _ H) as [m1 H1]; destruct (L2 _ _ H1) as [m2 H2].
    exists (m1 ++ m2); now rewrite H2, app_assoc.
Qed.

Lemma treatLexicalEntry_grows (c c' : mapping) (lexicalEntry : value) :
  treatLexicalEntry c lexicalEntry = Ok c' -> grows c c'.
Proof.
  intros H; destruct (treatLexicalEntry_assigns _ _ _ H)
    as (key & definitions & -> & _); split.
  - rewrite keys_assign; destruct (has_own c key).
    + exists []; now rewrite app_nil_r.
    + now exists [key].
  - intros k data Hk; destruct (String.eqb k key) eqn:E.
    + apply String.eqb_eq in E; subst k.
      exists definitions; rewrite lookup_assign_same.
      unfold current; now rewrite Hk.
    + apply String.eqb_neq in E; exists [].
      now rewrite lookup_assign_other, app_nil_r.
Qed.

Lemma treatTopLevelObject_grows (c c' : mapping) (topLevelObject : value) :
  treatTopLevelObject c topLevelObject = Ok c' -> grows c c'.
Proof.
  unfold treatTopLevelObject.
  destruct (get topLevelObject "lexicalEntries") as [lexicalEntries|]; simpl;
    [|discriminate].
  destruct (elements lexicalEntries) as [l|]; simpl; [|discriminate].
  apply (reduce_invariant (grows c) treatLexicalEntry); [|apply grows_refl].
  intros acc x acc' Ha Hx.
  apply (grows_trans _ acc); [assumption|].
  now apply (treatLexicalEntry_grows _ _ x).
Qed.

(** X2.  The reduction never drops or reorders what it has collected:
    whatever the result objects hold, when it returns, the keys the
    collector had come first and in the same order, and each of them
    holds the array it held, possibly with more definitions after it. *)
Theorem reduction_only_appends (results : list value) (c m : mapping) :
  reduce treatTopLevelObject results c = Ok m ->
  (exists new, map fst m = map fst c ++ new)
  /\ forall k data, lookup c k = Some data ->
       exists more, lookup m k = Some (data ++ more).
Proof.
  apply (reduce_invariant (grows c) treatTopLevelObject); [|apply grows_refl].
  intros acc x acc' Ha Hx.
  apply (grows_trans _ acc); [assumption|].
  now apply (treatTopLevelObject_grows _ _ x).
Qed.

Lemma reduction_only_appends_witness :
  (exists new,
     map fst [("Noun", [Str "a"; Str "b"])] = map fst [("Noun", [Str "a"])] ++ new)
  /\ forall k data, lookup [("Noun", [Str "a"])] k = Some data ->
       exists more, lookup [("Noun", [Str "a"; Str "b"])] k = Some (data ++ more).
Proof.
  apply (reduction_only_appends
           [Obj [("lexicalEntries",
                  Arr [sample_entry "Noun" [sample_sense ["b"]]])]]).
  reflexivity.
Defined.

(** ** Keys of the collector *)

Lemma treatLexicalEntry_sound (c c' : mapping) (lexicalEntry : value) :
  sound c -> treatLexicalEntry c lexicalEntry = Ok c' -> sound c'.
Proof.
  intros [Hn Hi] H; destruct (treatLexicalEntry_assigns _ _ _ H)
    as (key & definitions & -> & Hkey).
  unfold sound; rewrite keys_assign.
  destruct (has_own c key) eqn:E; [now split|].
  assert (Hnot : ~ In key (map fst c)).
  { intros Hin; apply has_own_In in Hin; congruence. }
  split.
  - apply (Permutation_NoDup (Permutation_cons_append (map fst c) key)).
    now constructor.
  - intros k Hk; apply in_app_or in Hk as [Hk | [<- | []]]; auto.
Qed.

Lemma treatTopLevelObject_sound (c c' : mapping) (topLevelObject : value) :
  sound c -> treatTopLevelObject c topLevelObject = Ok c' -> sound c'.
Proof.
  intros Hc; unfold treatTopLevelObject.
  destruct (get topLevelObject "lexicalEntries") as [lexicalEntries|]; simpl;
    [|discriminate].
  destruct (elements lexicalEntries) as [l|]; simpl; [|discriminate].
  apply (reduce_invariant sound treatLexicalEntry); [|assumption].
  intros acc x acc' Ha Hx; now apply (treatLexicalEntry_sound acc acc' x).
Qed.

Lemma insert_index_Permutation (p : N * string) (l : list (N * string)) :
  Permutation (insert_index p l) (p :: l).
Proof.
  induction l as [|q l IH]; simpl; [reflexivity|].
  destruct (fst p <=? fst q)%N; [reflexivity|].
  rewrite IH; apply perm_swap.
Qed.

Lemma indices_Permutation (names : list string) :
  Permutation (map snd (indices names)) (filter is_index names).
Proof.
  induction names as [|k names IH]; simpl; [reflexivity|].
  unfold is_index at 1; destruct (array_index k) as [n|]; [|exact IH].
  rewrite (Permutation_map snd (insert_index_Permutation (n, k) _)); simpl.
  now constructor.
Qed.

Lemma filter_both_Permutation {A : Type} (p : A -> bool) (l : list A) :
  Permutation (filter p l ++ filter (fun x => negb (p x)) l) l.
Proof.
  induction l as [|x l IH]; simpl; [reflexivity|].
  destruct (p x); simpl.
  - now constructor.
  - rewrite <- Permutation_middle; now constructor.
Qed.

Lemma Object_keys_Permutation (collection : mapping) :
  Permutation (Object_keys collection) (map fst collection).
Proof.
  unfold Object_keys; rewrite indices_Permutation.
  apply filter_both_Permutation.
Qed.

(** X3.  Whatever the response holds, the mapping the reducer returns has
    pairwise distinct keys, none of them the name of a property of
    [Object.prototype], and the categories the renderer goes through are
    these keys, each one once. *)
Theorem reduced_mapping_keys (response metadata : value) (m : mapping) :
  reduceResponse response = Ok (metadata, m) ->
  NoDup (map fst m)
  /\ (forall k, In k (map fst m) -> inherited k = false)
  /\ Permutation (Object_keys m) (map fst m)
  /\ NoDup (Object_keys m).
Proof.
  unfold reduceResponse.
  destruct (get response "data") as [data|]; simpl; [|discriminate].
  destruct (get data "metadata") as [md|]; simpl; [|discriminate].
  destruct (get data "results") as [results|]; simpl; [|discriminate].
  destruct (elements results) as [l|]; simpl; [|discriminate].
  destruct (reduce treatTopLevelObject l []) as [m'|] eqn:E; simpl;
    [|discriminate].
  intros [= _ <-].
  assert (Hs : sound m').
  { apply (reduce_invariant sound treatTopLevelObject) with (l := l) (init := []).
    - intros acc x acc' Ha Hx; now apply (treatTopLevelObject_sound acc acc' x).
    - split; [constructor | intros k []].
    - exact E. }
  destruct Hs as [Hn Hi]; repeat split; try assumption.
  - apply Object_keys_Permutation.
  - apply (Permutation_NoDup (Permutation_sym (Object_keys_Permutation m')) Hn).
Qed.

Lemma reduced_mapping_keys_witness :
  NoDup (map fst [("Noun", [Str "a"; Str "b"])])
  /\ (forall k, In k (map fst [("Noun", [Str "a"; Str "b"])]) ->
        inherited k = false)
  /\ Permutation (Object_keys [("Noun", [Str "a"; Str "b"])])
       (map fst [("Noun", [Str "a"; Str "b"])])
  /\ NoDup (Object_keys [("Noun", [Str "a"; Str "b"])]).
Proof.
  apply (reduced_mapping_keys (Obj [("data", scenario_C)])
           (Obj [("provider", Str "Oxford University Press")])).
  reflexivity.
Defined.

(** ** treatEntry *)

Lemma sample_senses_collect (dss : list (list string)) :
  flat_map sense_collects
    (map (fun ds => {| sense_definitions := Some ds |}) dss)
  = map Str (List.concat dss).
Proof.
  induction dss as [|ds dss IH]; simpl; [reflexivity|].
  now rewrite IH, map_app.
Qed.

(** X4.  For a sense group all of whose senses have a [definitions] array
    of strings, [treatEntry] returns all these strings, sense after sense
    and in the order of each array; empty arrays and an empty [senses]
    contribute nothing. *)
Theorem treatEntry_collects_in_order (dss : list (list string)) :
  treatEntry (Obj [("senses", Arr (map sample_sense dss))])
  = Ok (map Str (List.concat dss)).
Proof.
  pose proof (treatEntry_group
    {| group_senses :=
         Some (map (fun ds => {| sense_definitions := Some ds |}) dss) |}) as H.
  unfold group_value, group_collects in H; simpl in H.
  rewrite map_map, sample_senses_collect in H; exact H.
Qed.

(** X5.  The default for [senses] covers the absent key only.  When
    [senses] is present and is not an array ([null], a string, an object),
    or is an array holding a [null], [treatEntry] throws. *)
Theorem treatEntry_throws_on_bad_senses
  (entry : list (string * value)) (senses : value) :
  lookup entry "senses" = Some senses ->
  (senses <> Undefined /\ forall l, senses <> Arr l)
  \/ (exists l, senses = Arr l /\ In Null l) ->
  treatEntry (Obj entry) = Throw TypeError.
Proof.
  intros H [[Hu Ha] | (l & -> & Hin)]; unfold treatEntry; simpl; rewrite H; simpl.
  - destruct senses; try reflexivity; [congruence | now destruct (Ha elems)].
  - now apply (reduce_throws treatSense l Null Hin).
Qed.

Lemma treatEntry_throws_on_bad_senses_witness :
  treatEntry (Obj [("senses", Null)]) = Throw TypeError
  /\ treatEntry (Obj [("senses", Arr [sample_sense ["a"]; Null])])
     = Throw TypeError.
Proof.
  split.
  - apply (treatEntry_throws_on_bad_senses [("senses", Null)] Null eq_refl).
    left; split; [discriminate | intros l; discriminate].
  - apply (treatEntry_throws_on_bad_senses
             [("senses", Arr [sample_sense ["a"]; Null])]
             (Arr [sample_sense ["a"]; Null]) eq_refl).
    right; exists [sample_sense ["a"]; Null]; split;
      [reflexivity | right; left; reflexivity].
Defined.

(** ** treatLexicalEntry *)

(** X6.  A [lexicalCategory] object without [text] is no error: the part
    of speech reads as [undefined] and the definitions of the entry are
    filed under the key ["undefined"]. *)
Theorem absent_text_files_under_undefined
  (collector : mapping) (lexicalEntry lexicalCategory : list (string * value))
  (entries : list value) :
  lookup lexicalEntry "lexicalCategory" = Some (Obj lexicalCategory) ->
  lookup lexicalEntry "entries" = Some (Arr entries) ->
  lookup lexicalCategory "text" = None ->
  treatLexicalEntry collector (Obj lexicalEntry)
  = (arrays <- map_result treatEntry entries ;;
     Ok (assign collector "undefined"
           (current collector "undefined" ++ List.concat arrays))).
Proof.
  intros Hc He Ht; unfold treatLexicalEntry; simpl.
  rewrite He, Hc; simpl; rewrite Ht; simpl.
  destruct (map_result treatEntry entries) as [arrays|e]; simpl; [|reflexivity].
  rewrite flat_map_Arr; unfold read, current.
  destruct (lookup collector "undefined"); reflexivity.
Qed.

Lemma absent_text_files_under_undefined_witness :
  treatLexicalEntry []
    (Obj [ ("lexicalCategory", Obj []);
           ("entries", Arr [Obj [("senses", Arr [sample_sense ["a"]])]]) ])
  = Ok [("undefined", [Str "a"])].
Proof.
  apply (absent_text_files_under_undefined []
           [ ("lexicalCategory", Obj []);
             ("entries", Arr [Obj [("senses", Arr [sample_sense ["a"]])]]) ]
           [] [Obj [("senses", Arr [sample_sense ["a"]])]]);
    reflexivity.
Defined.

(** ** What treatResponse logs *)

Lemma treatResponse_cases
  (expression : string) (response : value) (out : console) :
  (exists heading definitions,
     treatResponse expression response out
     = (out ++ [banner; heading; definitions; banner], Ok tt))
  \/ treatResponse expression response out = (out, Throw TypeError)
  \/ treatResponse expression response out = (out ++ [banner], Throw TypeError).
Proof.
  unfold treatResponse.
  destruct (reduceResponse response) as [[metadata collection]|e];
    [|right; left; now rewrite (error_unique e)].
  unfold renderText.
  destruct (renderDefinitions collection) as [definitions|e];
    [|right; left; now rewrite (error_unique e)].
  destruct (provider <- get metadata "provider" ;; to_string provider)
    as [provider|e].
  - left; eexists; exists definitions; now rewrite <- app_assoc.
  - right; right; now rewrite (error_unique e).
Qed.

(** X7.  Whatever the response holds, [treatResponse] ends in one of three
    ways: it returns after logging exactly four entries, the banner, a
    title, the definitions and the banner again; or it throws with nothing
    logged; or it throws with only the opening banner logged. *)
Theorem treatResponse_outcomes
  (expression : string) (response : value) (out : console) :
  (exists heading definitions,
     treatResponse expression response out
     = (out ++ [banner; heading; definitions; banner], Ok tt))
  \/ treatResponse expression response out = (out, Throw TypeError)
  \/ treatResponse expression response out = (out ++ [banner], Throw TypeError).
Proof. apply treatResponse_cases. Qed.

Lemma to_string_primitive (v : value) :
  primitive v = true -> exists s, to_string v = Ok s.
Proof.
  destruct v as [| |[]| | | |]; simpl; try discriminate; intros _;
    eexists; reflexivity.
Qed.

Lemma catDefs_primitive (data : list value) :
  forallb primitive data = true ->
  forall index, exists lines, catDefs index data = Ok lines.
Proof.
  induction data as [|v data IH]; simpl; intros H index.
  - now exists [].
  - apply andb_prop in H as [Hv Hd].
    destruct (to_string_primitive v Hv) as [s ->]; simpl.
    destruct (IH Hd (S index)) as [lines ->]; simpl.
    eexists; reflexivity.
Qed.

Lemma renderDefinitions_primitive (collection : mapping) :
  (forall k data, lookup collection k = Some data ->
     forallb primitive data = true) ->
  exists text, renderDefinitions collection = Ok text.
Proof.
  intros H; unfold renderDefinitions.
  generalize (Object_keys collection) as categories.
  generalize EmptyString as definitions.
  intros definitions categories; revert definitions.
  induction categories as [|k categories IH]; intros definitions; simpl.
  - now exists definitions.
  - unfold renderCategory at 1.
    destruct (lookup collection k) as [[|v data]|] eqn:E; simpl;
      try apply IH.
    destruct (catDefs_primitive (v :: data) (H _ _ E) 0) as [lines Hl].
    simpl in Hl; rewrite Hl; simpl; apply IH.
Qed.

Lemma forallb_flat_map {A B : Type} (p : B -> bool) (f : A -> list B)
  (l : list A) :
  (forall x, forallb p (f x) = true) -> forallb p (flat_map f l) = true.
Proof.
  intros H; induction l as [|x l IH]; simpl; [reflexivity|].
  now rewrite forallb_app, H, IH.
Qed.

Lemma collected_under_primitive (k : string) (es : list LexicalEntry) :
  forallb primitive (collected_under k es) = true.
Proof.
  unfold collected_under, entry_collects, group_collects.
  apply forallb_flat_map; intros e.
  apply forallb_flat_map; intros g.
  destruct (group_senses g) as [ss|]; [|reflexivity].
  apply forallb_flat_map; intros s; unfold sense_collects.
  destruct (sense_definitions s) as [ds|]; [|reflexivity].
  induction ds; simpl; auto.
Qed.

(** X8.  A well-formed response none of whose labels names a property of
    [Object.prototype] is always rendered: the entry point does not throw
    and logs the banner, the title with the expression and the provider,
    the text of the categories, and the banner. *)
Theorem well_formed_response_is_rendered
  (expression : string) (a : ApiResponse) :
  (forall k, In k (labels a) -> inherited k = false) ->
  exists m text,
    reduceResponse (Obj [("data", response_value a)])
    = Ok (Obj [("provider", Str (response_provider a))], m)
    /\ renderDefinitions m = Ok text
    /\ render expression (response_value a)
       = ([banner; title expression (response_provider a); text; banner],
          Ok tt).
Proof.
  intros H; destruct (reduceResponse_returns a H) as [m Hm].
  destruct (reduceResponse_mapping _ _ _ Hm) as [Hkeys Hlook].
  destruct (renderDefinitions_primitive m) as [text Ht].
  { intros k data Hk.
    assert (Hin : In k (labels a)).
    { apply first_seen_In; rewrite <- Hkeys; apply has_own_In.
      unfold has_own; now rewrite Hk. }
    rewrite (Hlook k Hin) in Hk; injection Hk as <-.
    apply collected_under_primitive. }
  exists m, text; split; [exact Hm | split; [exact Ht|]].
  unfold render, treatResponse; rewrite Hm.
  unfold renderText; rewrite Ht; reflexivity.
Qed.

Lemma well_formed_response_is_rendered_witness :
  exists m text,
    reduceResponse (Obj [("data", response_value response_B)])
    = Ok (Obj [("provider", Str (response_provider response_B))], m)
    /\ renderDefinitions m = Ok text
    /\ render "debug" (response_value response_B)
       = ([banner; title "debug" (response_provider response_B); text; banner],
          Ok tt).
Proof.
  apply (well_formed_response_is_rendered "debug" response_B).
  intros k [<- | [<- | []]]; reflexivity.
Defined.

Lemma reduce_empty_lexicalEntries (results : list value) (c : mapping) :
  Forall (fun r => exists topLevelObject,
            r = Obj topLevelObject
            /\ lookup topLevelObject "lexicalEntries" = Some (Arr [])) results ->
  reduce treatTopLevelObject results c = Ok c.
Proof.
  induction 1 as [|r results (topLevelObject & -> & Hl) _ IH]; simpl;
    [reflexivity|].
  unfold treatTopLevelObject at 1; simpl; rewrite Hl; simpl; exact IH.
Qed.

(** X9.  A response with no lexical entry at all, [results] being empty or
    holding only objects whose [lexicalEntries] is empty, is no error: the
    banner, the title, an empty text and the banner are logged. *)
Theorem nothing_to_define
  (expression provider : string) (props : list (string * value))
  (results : list value) (metadata : value) :
  lookup props "results" = Some (Arr results) ->
  Forall (fun r => exists topLevelObject,
            r = Obj topLevelObject
            /\ lookup topLevelObject "lexicalEntries" = Some (Arr [])) results ->
  lookup props "metadata" = Some metadata ->
  (p <- get metadata "provider" ;; to_string p) = Ok provider ->
  render expression (Obj props)
  = ([banner; title expression provider; EmptyString; banner], Ok tt).
Proof.
  intros Hr Hall Hm Hp.
  unfold render, treatResponse, reduceResponse; simpl.
  rewrite Hm, Hr; simpl.
  rewrite (reduce_empty_lexicalEntries _ _ Hall); simpl.
  unfold renderText; simpl.
  change (banner :: nil) with [banner].
  destruct (get metadata "provider") as [p|e]; simpl in *; [|discriminate].
  now rewrite Hp.
Qed.

Lemma nothing_to_define_witness :
  render "debug"
    (Obj [ provider_OUP; ("results", Arr [Obj [("lexicalEntries", Arr [])]]) ])
  = ([banner; title "debug" "Oxford University Press"; EmptyString; banner],
     Ok tt).
Proof.
  apply (nothing_to_define "debug" "Oxford University Press"
           [ provider_OUP; ("results", Arr [Obj [("lexicalEntries", Arr [])]]) ]
           [Obj [("lexicalEntries", Arr [])]]
           (Obj [("provider", Str "Oxford University Press")])).
  - reflexivity.
  - repeat constructor.
    exists [("lexicalEntries", Arr [])]; split; reflexivity.
  - reflexivity.
  - reflexivity.
Defined.

(** ** The expression *)

Lemma indexOf_None (c : ascii) (s : string) :
  indexOf c s = None <-> ~ In c (list_ascii_of_string s).
Proof.
  induction s as [|c' s IH]; simpl; [tauto|].
  destruct (Ascii.eqb c' c) eqn:E.
  - apply Ascii.eqb_eq in E; split; [discriminate | intros H; exfalso; auto].
  - apply Ascii.eqb_neq in E.
    destruct (indexOf c s); simpl.
    + split; [discriminate|].
      intros H; assert (Hn : Some n = None); [|discriminate].
      apply IH; intros Hin; apply H; now right.
    + split; [|reflexivity].
      intros _ [H | H]; [congruence | now apply (proj1 IH)].
Qed.

Lemma indexOf_substring (c : ascii) (s : string) :
  forall n, indexOf c s = Some n -> indexOf c (substring 0 n s) = None.
Proof.
  induction s as [|c' s IH]; simpl; intros n; [discriminate|].
  destruct (Ascii.eqb c' c) eqn:E.
  - now intros [= <-].
  - destruct (indexOf c s) as [n'|]; simpl; [|discriminate].
    intros [= <-]; simpl; now rewrite E, (IH n' eq_refl).
Qed.

Lemma indexOf_append (c : ascii) (pre post : string) :
  indexOf c pre = None ->
  indexOf c (pre ++ String c post)%string = Some (String.length pre)
  /\ substring 0 (String.length pre) (pre ++ String c post)%string = pre.
Proof.
  induction pre as [|c' pre IH]; simpl.
  - intros _; now rewrite Ascii.eqb_refl.
  - destruct (Ascii.eqb c' c); [discriminate|].
    destruct (indexOf c pre); [discriminate|].
    intros _; destruct (IH eq_refl) as [-> ->]; now split.
Qed.

Lemma indexOf_append_None (c : ascii) (a b : string) :
  indexOf c a = None -> indexOf c b = None -> indexOf c (a ++ b)%string = None.
Proof.
  intros Ha Hb; induction a as [|c' a IH]; simpl in *; [assumption|].
  destruct (Ascii.eqb c' c); [discriminate|].
  destruct (indexOf c a); [discriminate|].
  now rewrite IH.
Qed.

Lemma strip_suffix (back : bool) (n : nat) :
  forall l, List.length l <= n -> exists pre, l = pre ++ strip back l.
Proof.
  induction n as [|n IH]; intros l Hl.
  - destruct l; [now exists [] | simpl in Hl; lia].
  - destruct l as [|c1 [|c2 [|c3 r3]]]; simpl in *;
      try (now exists []).
    + destruct (space1 c1); [now exists [c1] | now exists []].
    + destruct (space1 c1).
      { destruct (IH [c2]) as [pre Hp]; [simpl; lia|].
        exists (c1 :: pre); simpl in *; now rewrite <- Hp. }
      destruct (if back then space2 c2 c1 else space2 c1 c2);
        [now exists [c1; c2] | now exists []].
    + destruct (space1 c1).
      { destruct (IH (c2 :: c3 :: r3)) as [pre Hp]; [simpl; lia|].
        exists (c1 :: pre); simpl in *; now rewrite <- Hp. }
      destruct (if back then space2 c2 c1 else space2 c1 c2).
      { destruct (IH (c3 :: r3)) as [pre Hp]; [simpl; lia|].
        exists (c1 :: c2 :: pre); simpl in *; now rewrite <- Hp. }
      destruct (if back then space3 c3 c2 c1 else space3 c1 c2 c3).
      { destruct (IH r3) as [pre Hp]; [lia|].
        exists (c1 :: c2 :: c3 :: pre); simpl; now rewrite <- Hp. }
      now exists [].
Qed.

Lemma strip_In (back : bool) (l : list ascii) (c : ascii) :
  In c (strip back l) -> In c l.
Proof.
  destruct (strip_suffix back (List.length l) l (le_n _)) as [pre Hp].
  intros H; rewrite Hp; apply in_or_app; now right.
Qed.

Lemma strip_no_space (back : bool) (n : nat) :
  forall l, List.length l <= n -> starts_with_space back (strip back l) = false.
Proof.
  induction n as [|n IH]; intros l Hl.
  - destruct l; [reflexivity | simpl in Hl; lia].
  - destruct l as [|c1 [|c2 [|c3 r3]]]; simpl in *; [reflexivity| | |].
    + destruct (space1 c1) eqn:E1; simpl; [reflexivity | now rewrite E1].
    + destruct (space1 c1) eqn:E1.
      { apply (IH [c2]); simpl; lia. }
      destruct (if back then space2 c2 c1 else space2 c1 c2) eqn:E2;
        simpl; [reflexivity | now rewrite E1, E2].
    + destruct (space1 c1) eqn:E1.
      { apply (IH (c2 :: c3 :: r3)); simpl; lia. }
      destruct (if back then space2 c2 c1 else space2 c1 c2) eqn:E2.
      { apply (IH (c3 :: r3)); simpl; lia. }
      destruct (if back then space3 c3 c2 c1 else space3 c1 c2 c3) eqn:E3.
      { apply IH; lia. }
      simpl; now rewrite E1, E2, E3.
Qed.

Lemma starts_with_space_app (back : bool) (l more : list ascii) :
  starts_with_space back l = true ->
  starts_with_space back (l ++ more) = true.
Proof.
  destruct l as [|c1 [|c2 [|c3 r3]]]; simpl; try discriminate; try tauto.
  - rewrite orb_false_r; intros ->; reflexivity.
  - rewrite orb_false_r; intros H.
    apply orb_prop in H as [-> | ->]; [reflexivity|].
    now rewrite orb_true_r.
Qed.

Lemma trim_chars (s : string) :
  list_ascii_of_string (trim s)
  = rev (strip true (rev (strip false (list_ascii_of_string s)))).
Proof. unfold trim; apply list_ascii_of_string_of_list_ascii. Qed.

Lemma trim_In (s : string) (c : ascii) :
  In c (list_ascii_of_string (trim s)) -> In c (list_ascii_of_string s).
Proof.
  rewrite trim_chars; intros H.
  apply in_rev, strip_In, in_rev in H.
  now apply strip_In in H.
Qed.

(** [trim] leaves no white space at either end. *)
Lemma trim_trimmed (s : string) :
  starts_with_space false (list_ascii_of_string (trim s)) = false
  /\ starts_with_space true (rev (list_ascii_of_string (trim s))) = false.
Proof.
  rewrite trim_chars, rev_involutive; split.
  - set (front := strip false (list_ascii_of_string s)).
    destruct (strip_suffix true _ (rev front) (le_n _)) as [pre Hp].
    destruct (starts_with_space false (rev (strip true (rev front)))) eqn:E;
      [|reflexivity].
    apply (starts_with_space_app false _ (rev pre)) in E.
    rewrite <- rev_app_distr, <- Hp, rev_involutive in E.
    unfold front in E.
    now rewrite (strip_no_space false _ _ (le_n _)) in E.
  - apply (strip_no_space true _ _ (le_n _)).
Qed.

Lemma expression_no_hash (argv : list string) :
  indexOf "#"%char (expression argv) = None.
Proof.
  unfold expression.
  destruct (indexOf "#"%char (join " " (skipn 2 argv))) as [n|] eqn:E;
    [|exact E].
  apply indexOf_None; intros H; apply trim_In in H.
  revert H; apply indexOf_None, (indexOf_substring _ _ _ E).
Qed.

(** X10.  When the arguments, joined by spaces, hold a [#], the expression
    is what stands before the first [#] with the white space at both ends
    removed: whatever follows the [#] is dropped, and the expression
    neither starts nor ends with white space. *)
Theorem comment_is_dropped (argv : list string) (pre post : string) :
  join " " (skipn 2 argv) = (pre ++ String "#"%char post)%string ->
  indexOf "#"%char pre = None ->
  expression argv = trim pre
  /\ starts_with_space false (list_ascii_of_string (expression argv)) = false
  /\ starts_with_space true (rev (list_ascii_of_string (expression argv)))
     = false.
Proof.
  intros Hj Hp.
  assert (He : expression argv = trim pre).
  { unfold expression; rewrite Hj.
    destruct (indexOf_append "#"%char pre post Hp) as [-> ->]; reflexivity. }
  rewrite He; split; [reflexivity | apply trim_trimmed].
Qed.

Lemma comment_is_dropped_witness :
  expression ["node"; "index"; "so"; "far"; "#"; "adverb"] = trim "so far "
  /\ starts_with_space false
       (list_ascii_of_string
          (expression ["node"; "index"; "so"; "far"; "#"; "adverb"])) = false
  /\ starts_with_space true
       (rev (list_ascii_of_string
               (expression ["node"; "index"; "so"; "far"; "#"; "adverb"])))
     = false.
Proof.
  apply (comment_is_dropped ["node"; "index"; "so"; "far"; "#"; "adverb"]
           "so far " " adverb"); reflexivity.
Defined.

(** X11.  The expression never holds a [#], and it is stable: given back
    to the program as its only argument, it is the expression again. *)
Theorem expression_is_stable (argv : list string) (node script : string) :
  indexOf "#"%char (expression argv) = None
  /\ expression [node; script; expression argv] = expression argv.
Proof.
  pose proof (expression_no_hash argv) as H; split; [exact H|].
  unfold expression at 1; cbn [skipn join]; now rewrite H.
Qed.

(** X12.  The address of the request holds no [#]: the expression cannot
    open a fragment in it. *)
Theorem url_has_no_fragment (argv : list string) :
  indexOf "#"%char (url (expression argv)) = None.
Proof.
  unfold url; apply indexOf_append_None; [reflexivity|].
  apply indexOf_append_None; [apply expression_no_hash | reflexivity].
Qed.

(** ** Errors *)

(** X13.  A request that failed with a response is reported as text and
    [treatError] returns: when the status and its text are not objects,
    the first entry logged starts with the warning sign and, on the next
    line, [ERROR] and the status, whatever the status is. *)
Theorem treatError_reports_status
  (expression : string) (response code message status statusText : value)
  (out : list entry) :
  truthy response = true ->
  get response "status" = Ok status ->
  get response "statusText" = Ok statusText ->
  primitive status = true ->
  primitive statusText = true ->
  exists s rest more,
    to_string status = Ok s
    /\ treatError expression (Rejected response code message) out
       = (out ++ Line (warning ++ newline ++ "ERROR " ++ s ++ rest)%string
                   :: more,
          Ok tt).
Proof.
  intros Ht Hs Hx Hps Hpx.
  destruct (to_string_primitive _ Hps) as [s Es].
  destruct (to_string_primitive _ Hpx) as [t Et].
  exists s; unfold treatError; rewrite Ht, Hs, Hx; simpl; rewrite Es, Et; simpl.
  assert (H404 : exists rest more,
            (out ++ [ Line (warning ++ newline ++ "ERROR " ++ s ++ ": "
                              ++ quote ++ expression ++ quote ++ " " ++ t
                              ++ warning)%string;
                      Line ("Please check your spelling" ++ newline
                              ++ warning)%string ],
             Ok tt)
            = (out ++ Line (warning ++ newline ++ "ERROR " ++ s ++ rest)%string
                        :: more,
               @Ok unit tt)).
  { eexists; eexists; reflexivity. }
  assert (H400 : exists rest more,
            (out ++ [ Line (warning ++ newline ++ "ERROR " ++ s ++ ": "
                              ++ t ++ newline
                              ++ "Check the APP_KEY and APP_ID in your .env file."
                              ++ newline ++ warning)%string ],
             Ok tt)
            = (out ++ Line (warning ++ newline ++ "ERROR " ++ s ++ rest)%string
                        :: more,
               @Ok unit tt)).
  { eexists; eexists; reflexivity. }
  assert (Hany : exists rest more,
            (out ++ [ Line (warning ++ newline ++ "ERROR " ++ s ++ " for "
                              ++ quote ++ expression ++ quote ++ ": " ++ t
                              ++ newline ++ warning)%string ],
             Ok tt)
            = (out ++ Line (warning ++ newline ++ "ERROR " ++ s ++ rest)%string
                        :: more,
               @Ok unit tt)).
  { eexists; eexists; reflexivity. }
  destruct H404 as (r1 & m1 & E1), H400 as (r2 & m2 & E2),
    Hany as (r3 & m3 & E3).
  repeat match goal with
         | |- context [match ?x with _ => _ end] => destruct x
         end;
    first [ exists r1, m1; split; [reflexivity | exact E1]
          | exists r2, m2; split; [reflexivity | exact E2]
          | exists r3, m3; split; [reflexivity | exact E3] ].
Qed.

Lemma treatError_reports_status_witness :
  exists s rest more,
    to_string (Num "403") = Ok s
    /\ treatError "debug"
         (Rejected (Obj [("status", Num "403"); ("statusText", Str "Forbidden")])
            (Str "ERR_BAD_REQUEST") (Str "Request failed with status code 403"))
         []
       = ([] ++ Line (warning ++ newline ++ "ERROR " ++ s ++ rest)%string
                  :: more,
          Ok tt).
Proof.
  apply (treatError_reports_status "debug"
           (Obj [("status", Num "403"); ("statusText", Str "Forbidden")])
           (Str "ERR_BAD_REQUEST") (Str "Request failed with status code 403")
           (Num "403") (Str "Forbidden") []); reflexivity.
Defined.

(** X14.  Whatever response the request is answered with, no exception
    escapes the program: either the four entries of the display are
    logged, or the [TypeError] thrown by [treatResponse] is caught and
    logged as it is, after nothing or after the opening banner. *)
Theorem main_catches_script_errors (expression : string) (response : value) :
  (exists heading definitions,
     main expression (Fulfilled response)
     = ([Line banner; Line heading; Line definitions; Line banner], Ok tt))
  \/ main expression (Fulfilled response) = ([Inspect (Thrown TypeError)], Ok tt)
  \/ main expression (Fulfilled response)
     = ([Line banner; Inspect (Thrown TypeError)], Ok tt).
Proof.
  unfold main.
  destruct (treatResponse_cases expression response [])
    as [(heading & definitions & ->) | [-> | ->]].
  - left; exists heading, definitions; reflexivity.
  - right; left; reflexivity.
  - right; right; reflexivity.
Qed.

(** ** Bodies without a results array *)

(** X15.  When [results] does not read as an array, the body being
    [null], a string, or an object whose [results] is absent, [null] or
    anything else, the entry point throws and nothing has been logged. *)
Theorem results_must_be_an_array (expression : string) (data : value) :
  (forall l, get data "results" <> Ok (Arr l)) ->
  render expression data = ([], Throw TypeError).
Proof.
  intros H; unfold render, treatResponse, reduceResponse; simpl.
  destruct (get data "metadata") as [metadata|e]; simpl;
    [|now rewrite (error_unique e)].
  destruct (get data "results") as [results|e]; simpl;
    [|now rewrite (error_unique e)].
  destruct results; try reflexivity.
  now destruct (H elems).
Qed.

Lemma results_must_be_an_array_witness :
  render "debug" (Obj [provider_OUP; ("results", Null)]) = ([], Throw TypeError)
  /\ render "debug" (Str "Bad Gateway") = ([], Throw TypeError).
Proof.
  split.
  - apply (results_must_be_an_array "debug"
             (Obj [provider_OUP; ("results", Null)])).
    intros l; discriminate.
  - apply (results_must_be_an_array "debug" (Str "Bad Gateway")).
    intros l; discriminate.
Defined.

(** ** Order of the categories, in general *)

(** X16.  For every well-formed response, the categories are rendered in
    this order: first the labels that are array indices, by ascending
    numeric value, then the other labels in first-seen order. *)
Theorem categories_order
  (a : ApiResponse) (metadata : value) (m : mapping) :
  reduceResponse (Obj [("data", response_value a)]) = Ok (metadata, m) ->
  Object_keys m
  = map snd (indices (first_seen (labels a)))
      ++ filter (fun k => negb (is_index k)) (first_seen (labels a))
  /\ Sorted index_le (indices (first_seen (labels a)))
  /\ forall n k, In (n, k) (indices (first_seen (labels a)))
       <-> In k (labels a) /\ array_index k = Some n.
Proof.
  intros Hm; destruct (reduceResponse_mapping _ _ _ Hm) as [Hkeys _].
  split; [|split].
  - unfold Object_keys; now rewrite Hkeys.
  - apply indices_Sorted.
  - intros n k; rewrite indices_In; split; intros [H1 H2]; split; auto.
    + now apply first_seen_In.
    + now apply first_seen_complete.
Qed.

Lemma categories_order_witness :
  Object_keys [("Noun", [Str "a"]); ("1", [Str "b"])]
  = map snd (indices (first_seen (labels response_numeric_label)))
      ++ filter (fun k => negb (is_index k))
           (first_seen (labels response_numeric_label))
  /\ Sorted index_le (indices (first_seen (labels response_numeric_label)))
  /\ forall n k,
       In (n, k) (indices (first_seen (labels response_numeric_label)))
       <-> In k (labels response_numeric_label) /\ array_index k = Some n.
Proof.
  apply (categories_order response_numeric_label
           (Obj [("provider", Str "Oxford University Press")])).
  reflexivity.
Defined.
